(** * Snake.cpp: a shallow embedding of the simulation core

    The development follows [src/Snake.cpp] class by class.  Every C++ class
    becomes a module holding a record of its data members and one function
    per member function; member functions that mutate their object return
    the updated record.

    Conventions of the embedding.
    - [Vector2] is raylib's pair of floats.  Every coordinate the game
      computes is an integer of small magnitude (a multiple of 50 between
      0 and 850), which a float represents exactly, so the components are
      integers of [Z] and raylib's epsilon comparison [Vector2Equals]
      coincides with equality of the components.
    - [GetTime] returns a double; times and intervals are rationals of [Q]
      and the comparison of the movement gate is the exact one.
    - The collaborators of the core (key state, clock, random generator)
      are an input record [Frame], one per iteration of the frame loop.
    - The two loops of the program, the rejection sampling of
      [Food::generateRandomPos] and the scan of
      [CollisionHandler::selfCollisionHandle], return [option]: [None]
      stands for a loop that does not finish. *)

From Stdlib Require Import ZArith QArith List Bool String Lia.
Import ListNotations.

Local Open Scope Z_scope.

(** ** Global constants (lines 6-12) *)

Definition gridWidth : Z := 800.
Definition gridHeight : Z := 800.
Definition offset : Z := 50.
Definition cellSize : Z := 50.
Definition rows : Z := gridHeight / cellSize.
Definition cols : Z := gridWidth / cellSize.

(** ** The part of raylib the core uses *)

Record Vector2 : Set := mkVector2 { x : Z; y : Z }.

Definition Vector2Add (v1 v2 : Vector2) : Vector2 :=
  mkVector2 (x v1 + x v2) (y v1 + y v2).

(** [operator*] of a vector and a scalar. *)
Definition Vector2Scale (v : Vector2) (scale : Z) : Vector2 :=
  mkVector2 (x v * scale) (y v * scale).

(** [Vector2Equals], also reached through [operator==]. *)
Definition Vector2Equals (p q : Vector2) : bool :=
  (x p =? x q) && (y p =? y q).

(** [GetRandomValue(min, max)] reduces the next raw output of the generator
    into the closed range between its arguments. *)
Definition GetRandomValue (raw min max : Z) : Z :=
  let lo := if max <? min then max else min in
  let hi := if max <? min then min else max in
  raw mod (hi - lo + 1) + lo.

(** What one iteration of the frame loop reads from the collaborators:
    [IsKeyDown] for the four keys, [GetTime], and the raw outputs the random
    generator hands out during the frame, in the order of the calls. *)
Record Frame : Type := mkFrame {
  keyW : bool;
  keyS : bool;
  keyA : bool;
  keyD : bool;
  currentTime : Q;
  rand : nat -> Z
}.

(** ** class GameSettings *)

Module GameSettings.

(** [enum class Difficulty {Easy, Medium, Hard}]: a scoped enumeration
    over [int], written as its underlying value so that the [default]
    branch of [getInterval] has inputs. *)
Definition Difficulty : Set := Z.
Definition Easy : Difficulty := 0.
Definition Medium : Difficulty := 1.
Definition Hard : Difficulty := 2.

Definition getInterval (difficulty : Difficulty) : Q :=
  match difficulty with
  | 0 => 0.5%Q
  | 1 => 0.3%Q
  | 2 => 0.1%Q
  | _ => 0.6%Q
  end.

Definition setDifficulty (sDifficulty : string) : Difficulty :=
  if String.eqb sDifficulty "Easy" then Easy
  else if String.eqb sDifficulty "Medium" then Medium
  else if String.eqb sDifficulty "Hard" then Hard
  else Easy.

End GameSettings.

(** ** class Food *)

Module Food.

(** The texture, the colour and the copy of the snake body taken by the
    constructor are never read by the simulation. *)
Record t : Set := mk { applePos : Vector2 }.

Definition shouldGenerateAgain (snakeBody : list Vector2) (pos : Vector2)
  : bool :=
  existsb (fun body => Vector2Equals pos body) snakeBody.

(** The [do ... while] loop.  [fuel] bounds the number of iterations and
    [calls] counts the calls of [GetRandomValue] made so far. *)
Fixpoint generateRandomPos_from (fuel : nat) (rand : nat -> Z) (calls : nat)
    (snakeBody : list Vector2) : option Vector2 :=
  match fuel with
  | O => None
  | S fuel' =>
      let randX := GetRandomValue (rand calls) 0 (rows - 1) in
      let randY := GetRandomValue (rand (S calls)) 0 (cols - 1) in
      let pos := mkVector2 (randX * cellSize + offset)
                           (randY * cellSize + offset) in
      if shouldGenerateAgain snakeBody pos
      then generateRandomPos_from fuel' rand (S (S calls)) snakeBody
      else Some pos
  end.

Definition generateRandomPos (fuel : nat) (rand : nat -> Z)
    (snakeBody : list Vector2) : option Vector2 :=
  generateRandomPos_from fuel rand O snakeBody.

(** [Food::Food(snakeBody)] *)
Definition ctor (fuel : nat) (rand : nat -> Z) (snakeBody : list Vector2)
  : option t :=
  option_map mk (generateRandomPos fuel rand snakeBody).

End Food.

(** ** class Snake *)

Module Snake.

(** [lastUpdateTime] is the function-local static of [Snake::Update]; the
    program has one snake, so it is kept with the object. *)
Record t : Type := mk {
  difficulty : GameSettings.Difficulty;
  interval : Q;
  addSegment : bool;
  snakeBody : list Vector2;
  lastDirection : Vector2;
  lastUpdateTime : Q
}.

(** Member initialisers and [Snake::Snake(difficulty)]. *)
Definition ctor (difficulty : GameSettings.Difficulty) : t :=
  mk difficulty
     (GameSettings.getInterval difficulty)
     false
     [ mkVector2 (cols * cellSize / 2 - cellSize)
                 (rows * cellSize / 2 - cellSize);
       mkVector2 (cols * cellSize / 2) (rows * cellSize / 2 - cellSize) ]
     (mkVector2 (-1) 0)
     0%Q.

Definition set_lastDirection (d : Vector2) (s : t) : t :=
  mk (difficulty s) (interval s) (addSegment s) (snakeBody s) d
     (lastUpdateTime s).

Definition set_addSegment (b : bool) (s : t) : t :=
  mk (difficulty s) (interval s) b (snakeBody s) (lastDirection s)
     (lastUpdateTime s).

Definition set_snakeBody (body : list Vector2) (s : t) : t :=
  mk (difficulty s) (interval s) (addSegment s) body (lastDirection s)
     (lastUpdateTime s).

Definition set_lastUpdateTime (time : Q) (s : t) : t :=
  mk (difficulty s) (interval s) (addSegment s) (snakeBody s)
     (lastDirection s) time.

(** [snakeBody[0]]; the body is never empty (see [Inv_nonempty]). *)
Definition head (s : t) : Vector2 := hd (mkVector2 0 0) (snakeBody s).

Definition getMoveDirection (f : Frame) (s : t) : Vector2 * t :=
  let s' :=
    if keyW f && negb (y (lastDirection s) =? 1)
    then set_lastDirection (mkVector2 0 (-1)) s
    else if keyS f && negb (y (lastDirection s) =? -1)
    then set_lastDirection (mkVector2 0 1) s
    else if keyA f && negb (x (lastDirection s) =? 1)
    then set_lastDirection (mkVector2 (-1) 0) s
    else if keyD f && negb (x (lastDirection s) =? -1)
    then set_lastDirection (mkVector2 1 0) s
    else s in
  (Vector2Scale (lastDirection s') cellSize, s').

Definition moveSnake (direction : Vector2) (s : t) : t :=
  let s1 :=
    set_snakeBody (Vector2Add (head s) direction :: snakeBody s) s in
  if addSegment s1 then set_addSegment false s1
  else set_snakeBody (removelast (snakeBody s1)) s1.

(** The test of the movement schedule in [Update]. *)
Definition due (f : Frame) (s : t) : bool :=
  Qle_bool (interval s) (currentTime f - lastUpdateTime s).

Definition Update (f : Frame) (s : t) : t :=
  let '(direction, s1) := getMoveDirection f s in
  if due f s1
  then set_lastUpdateTime (currentTime f) (moveSnake direction s1)
  else s1.

End Snake.

(** ** class CollisionHandler *)

Module CollisionHandler.

Record t : Set := mk { foodEaten : bool; gameOver : bool }.

(** The handler reaches the food and the snake of [GameCore] through the
    pointers [apple] and [playerSnake]; the objects behind the pointers are
    passed in and, where a function writes to them, handed back. *)
Definition foodCollisionHandle (fuel : nat) (rand : nat -> Z)
    (apple : Food.t) (playerSnake : Snake.t) (c : t)
  : option (Food.t * Snake.t * t) :=
  if Vector2Equals (Snake.head playerSnake) (Food.applePos apple) then
    match Food.generateRandomPos fuel rand (Snake.snakeBody playerSnake) with
    | None => None
    | Some pos =>
        Some (Food.mk pos, Snake.set_addSegment true playerSnake,
              mk true (gameOver c))
    end
  else Some (apple, playerSnake, c).

Definition borderCollisionHandle (snakeHead : Vector2) (c : t) : t :=
  if (x snakeHead <? offset) || (x snakeHead >=? gridWidth + offset)
     || (y snakeHead <? offset) || (y snakeHead >=? gridHeight + offset)
  then mk (foodEaten c) true
  else c.

(** The counter [i] of the scan is an [unsigned short]: after 65535 it
    continues at 0. *)
Definition ushort_next (i : Z) : Z := (i + 1) mod 65536.

(** The counter takes 65536 values and the scan changes nothing else
    before it leaves, so a scan still running after [ushort_states]
    iterations is back at its first counter and runs for ever. *)
Definition ushort_states : nat := Z.to_nat 65536.

Fixpoint selfCollisionScan (iterations : nat) (i : Z) (snakeHead : Vector2)
    (snakeBody : list Vector2) (c : t) : option t :=
  match iterations with
  | O => None
  | S iterations' =>
      if i <? Z.of_nat (List.length snakeBody) then
        if Vector2Equals snakeHead
             (nth (Z.to_nat i) snakeBody (mkVector2 0 0))
        then Some (mk (foodEaten c) true)
        else selfCollisionScan iterations' (ushort_next i) snakeHead
                               snakeBody c
      else Some c
  end.

Definition selfCollisionHandle (snakeHead : Vector2) (playerSnake : Snake.t)
    (c : t) : option t :=
  selfCollisionScan ushort_states 1 snakeHead (Snake.snakeBody playerSnake) c.

Definition handle (fuel : nat) (rand : nat -> Z)
    (apple : Food.t) (playerSnake : Snake.t) (c : t)
  : option (bool * (Food.t * Snake.t * t)) :=
  let snakeHead := Snake.head playerSnake in
  match foodCollisionHandle fuel rand apple playerSnake c with
  | None => None
  | Some (apple1, playerSnake1, c1) =>
      let c2 := borderCollisionHandle snakeHead c1 in
      match selfCollisionHandle snakeHead playerSnake1 c2 with
      | None => None
      | Some c3 => Some (gameOver c3, (apple1, playerSnake1, c3))
      end
  end.

End CollisionHandler.

(** ** class ScoreHandler *)

Module ScoreHandler.

(** [score] and [length] are static members of type [int]; a game eats
    fewer than 256 apples, far from the range of [int]. *)
Record t : Set := mk { score : Z; length : Z }.

Definition scoreMultiplier : Z := 10.

(** Static initialisers. *)
Definition init : t := mk 0 2.

(** Reads and clears [foodEaten] through the pointer [foodCollision]. *)
Definition Update (foodCollision : CollisionHandler.t) (s : t)
  : CollisionHandler.t * t :=
  if CollisionHandler.foodEaten foodCollision
  then (CollisionHandler.mk false (CollisionHandler.gameOver foodCollision),
        mk (score s + scoreMultiplier) (length s + 1))
  else (foodCollision, s).

End ScoreHandler.

(** ** class GameCore *)

Module GameCore.

(** The member [difficulty] of [GameCore] is never written nor read. *)
Record t : Type := mk {
  playerSnake : Snake.t;
  apple : Food.t;
  collision : CollisionHandler.t;
  scoreBoard : ScoreHandler.t;
  gameOver : bool
}.

(** [GameCore::GameCore(sDifficulty)]; [rand] are the raw outputs of the
    generator during construction. *)
Definition ctor (fuel : nat) (rand : nat -> Z) (sDifficulty : string)
  : option t :=
  let playerSnake := Snake.ctor (GameSettings.setDifficulty sDifficulty) in
  match Food.ctor fuel rand (Snake.snakeBody playerSnake) with
  | None => None
  | Some apple =>
      Some (mk playerSnake apple (CollisionHandler.mk false false)
               ScoreHandler.init false)
  end.

Definition Update (fuel : nat) (f : Frame) (g : t) : option t :=
  if negb (gameOver g) then
    let playerSnake1 := Snake.Update f (playerSnake g) in
    let '(collision1, scoreBoard1) :=
      ScoreHandler.Update (collision g) (scoreBoard g) in
    match CollisionHandler.handle fuel (rand f) (apple g) playerSnake1
                                  collision1 with
    | None => None
    | Some (over, (apple2, playerSnake2, collision2)) =>
        Some (mk playerSnake2 apple2 collision2 scoreBoard1 over)
    end
  else Some g.

(** The frame loop of [exec], for the frames of a list; each frame comes
    with the fuel of its loops. *)
Fixpoint exec (frames : list (nat * Frame)) (g : t) : option t :=
  match frames with
  | [] => Some g
  | (fuel, f) :: frames' =>
      match Update fuel f g with
      | None => None
      | Some g' => exec frames' g'
      end
  end.

End GameCore.

(** The program of [main]: [GameCore game("Medium")]. *)
Definition main_game (fuel : nat) (rand : nat -> Z) : option GameCore.t :=
  GameCore.ctor fuel rand "Medium".

(** A frame on which no key is down. *)
Definition noKeys (time : Q) (rand : nat -> Z) : Frame :=
  mkFrame false false false false time rand.

(** ** Drawing *)

(** What the drawing functions hand to raylib, call by call.  A [Color] is
    four [unsigned char]; a [Rectangle] is four floats holding integers, as
    for [Vector2]; of a texture only the size matters. *)
Module Color.
Record t : Set := mk { r : Z; g : Z; b : Z; a : Z }.
End Color.

Module Rectangle.
Record t : Set := mk { x : Z; y : Z; width : Z; height : Z }.
End Rectangle.

Module Texture2D.
Record t : Set := mk { width : Z; height : Z }.
End Texture2D.

Definition BLACK : Color.t := Color.mk 0 0 0 255.
Definition WHITE : Color.t := Color.mk 255 255 255 255.
Definition PURPLE : Color.t := Color.mk 200 122 255 255.

Inductive DrawCall : Type :=
| ClearBackground (color : Color.t)
| DrawRectangleLinesEx (rec : Rectangle.t) (lineThick : Z) (color : Color.t)
| DrawLine (startPosX startPosY endPosX endPosY : Z) (color : Color.t)
| DrawTexture (texture : Texture2D.t) (posX posY : Z) (tint : Color.t)
| DrawRectangleRounded (rec : Rectangle.t) (roundness : Q) (segments : Z)
    (color : Color.t).

Module Background.

Definition BackgroundColor : Color.t := Color.mk 73 98 58 191.
Definition GridColor : Color.t := Color.mk 200 200 200 50.
Definition borderCorrection : Z := 8.

Definition borderRectangle : Rectangle.t :=
  Rectangle.mk (offset - borderCorrection) (offset - borderCorrection)
              (gridWidth + 2 * borderCorrection)
              (gridHeight + 2 * borderCorrection).

(** [for (int i = from; i <= bound; i++) line(i);] with at most [fuel]
    iterations. *)
Fixpoint for_upto (fuel : nat) (i bound : Z) (line : Z -> DrawCall)
  : list DrawCall :=
  match fuel with
  | O => []
  | S fuel' =>
      if i <=? bound then line i :: for_upto fuel' (i + 1) bound line
      else []
  end.

(** Both loops run from 0 to [rows] (or [cols]) inclusive and then leave:
    [rows + 2] tests. *)
Definition Draw : list DrawCall :=
  [ ClearBackground BackgroundColor;
    DrawRectangleLinesEx borderRectangle 8 BLACK ]
  ++ for_upto (Z.to_nat (rows + 2)) 0 rows
       (fun i => DrawLine offset (offset + i * cellSize)
                          (offset + cols * cellSize) (offset + i * cellSize)
                          GridColor)
  ++ for_upto (Z.to_nat (cols + 2)) 0 cols
       (fun j => DrawLine (offset + j * cellSize) offset
                          (offset + j * cellSize) (offset + rows * cellSize)
                          GridColor).

End Background.

(** [Food::handleTexture]: the image resized to one cell. *)
Definition Food_appleTexture : Texture2D.t := Texture2D.mk cellSize cellSize.

(** [Food::Draw] *)
Definition Food_Draw (apple : Food.t) : list DrawCall :=
  [ DrawTexture Food_appleTexture (x (Food.applePos apple))
                (y (Food.applePos apple)) WHITE ].

(** The rectangle [snakeRect] of [Snake::Draw]. *)
Definition snakeRect (segment : Vector2) : Rectangle.t :=
  Rectangle.mk (x segment) (y segment) cellSize cellSize.

(** [Snake::Draw] *)
Definition Snake_Draw (s : Snake.t) : list DrawCall :=
  map (fun segment => DrawRectangleRounded (snakeRect segment) 0.5%Q 10 PURPLE)
      (Snake.snakeBody s).

(** * Vocabulary of the properties *)

(** ** The board *)

(** The board: the half-open rectangle of the border check. *)
Definition on_board (v : Vector2) : Prop :=
  offset <= x v < offset + gridWidth /\ offset <= y v < offset + gridHeight.

(** Grid-aligned coordinates: the board origin plus a whole number of cells. *)
Definition aligned (v : Vector2) : Prop :=
  (x v - offset) mod cellSize = 0 /\ (y v - offset) mod cellSize = 0.

(** A cell of the board. *)
Definition is_cell (v : Vector2) : Prop := on_board v /\ aligned v.

(** The cell of column [cx] and row [cy]. *)
Definition cell (cx cy : Z) : Vector2 :=
  mkVector2 (cx * cellSize + offset) (cy * cellSize + offset).

(** ** The random generator *)

(** The cell drawn by iteration [k] of the sampling loop. *)
Definition drawn (rand : nat -> Z) (k : nat) : Vector2 :=
  cell (GetRandomValue (rand (2 * k)%nat) 0 (rows - 1))
       (GetRandomValue (rand (S (2 * k))) 0 (cols - 1)).

(** A generator covers the board when every cell is the draw of some
    iteration: what is left of uniformity once probabilities are gone. *)
Definition covers_board (rand : nat -> Z) : Prop :=
  forall c, is_cell c -> exists k, drawn rand k = c.

(** The 256 cells of the board, column by column. *)
Definition board_cells : list Vector2 :=
  flat_map (fun cx => map (fun cy => cell (Z.of_nat cx) (Z.of_nat cy))
                          (seq 0 (Z.to_nat rows)))
           (seq 0 (Z.to_nat cols)).

(** ** Directions *)

(** The four values [getMoveDirection] stores, named after their keys W, S, A
    and D; the y axis of the window points down. *)
Definition dirUp : Vector2 := mkVector2 0 (-1).
Definition dirDown : Vector2 := mkVector2 0 1.
Definition dirLeft : Vector2 := mkVector2 (-1) 0.
Definition dirRight : Vector2 := mkVector2 1 0.

(** A stored direction. *)
Definition is_direction (v : Vector2) : Prop :=
  v = dirUp \/ v = dirDown \/ v = dirLeft \/ v = dirRight.

(** The exact reverse of a direction. *)
Definition reverse (v : Vector2) : Vector2 := mkVector2 (- x v) (- y v).

(** The direction in force after the keys of a frame were read. *)
Definition resolved (f : Frame) (s : Snake.t) : Vector2 :=
  Snake.lastDirection (snd (Snake.getMoveDirection f s)).

(** ** Collision and score *)

(** The test of [borderCollisionHandle]. *)
Definition outside (v : Vector2) : bool :=
  (x v <? offset) || (x v >=? gridWidth + offset)
  || (y v <? offset) || (y v >=? gridHeight + offset).

(** The verdict of one evaluation on a snake [s]: [true] when the flag was
    already set, the head is off the board, or the head is on a later
    segment. *)
Definition verdict (s : Snake.t) (c : CollisionHandler.t) : bool :=
  CollisionHandler.gameOver c
  || outside (Snake.head s)
  || existsb (Vector2Equals (Snake.head s)) (tl (Snake.snakeBody s)).

(** The counters after [ScoreHandler::Update]. *)
Definition scored (c : CollisionHandler.t) (s : ScoreHandler.t)
  : ScoreHandler.t :=
  snd (ScoreHandler.Update c s).

(** ** Reachable states and their invariant *)

(** What every state of the program satisfies: the two game-over flags agree,
    the direction is one of the four, the body is not empty and lies on the
    grid, the apple is a cell of the board off the body, and while the game
    runs the segments are distinct cells of the board. *)
Record Inv (g : GameCore.t) : Prop := mkInv {
  Inv_flags :
    CollisionHandler.gameOver (GameCore.collision g) = GameCore.gameOver g;
  Inv_direction :
    is_direction (Snake.lastDirection (GameCore.playerSnake g));
  Inv_nonempty :
    Snake.snakeBody (GameCore.playerSnake g) <> [];
  Inv_aligned :
    Forall aligned (Snake.snakeBody (GameCore.playerSnake g));
  Inv_apple_cell :
    is_cell (Food.applePos (GameCore.apple g));
  Inv_apple_free :
    ~ In (Food.applePos (GameCore.apple g))
         (Snake.snakeBody (GameCore.playerSnake g));
  Inv_running :
    GameCore.gameOver g = false ->
    NoDup (Snake.snakeBody (GameCore.playerSnake g))
    /\ Forall on_board (Snake.snakeBody (GameCore.playerSnake g))
}.

(** The states of the program: what a constructor builds and what ticks make
    of it. *)
Inductive reachable : GameCore.t -> Prop :=
| reachable_ctor (fuel : nat) (rand : nat -> Z) (sDifficulty : string)
    (g : GameCore.t) :
    GameCore.ctor fuel rand sDifficulty = Some g -> reachable g
| reachable_Update (fuel : nat) (f : Frame) (g g' : GameCore.t) :
    reachable g -> GameCore.Update fuel f g = Some g' -> reachable g'.

(** ** The direction resolver in the words of the specification *)

(** The candidates of a frame in the order of the tests: Up, Down, Left,
    Right, each present when its key is down. *)
Definition pressed (f : Frame) : list Vector2 :=
  (if keyW f then [dirUp] else [])
  ++ (if keyS f then [dirDown] else [])
  ++ (if keyA f then [dirLeft] else [])
  ++ (if keyD f then [dirRight] else []).

(** The resolver as the specification words it: the first pressed candidate
    that is not the exact reverse of the previous direction, else the
    previous direction. *)
Definition first_admissible (previous : Vector2) (f : Frame) : Vector2 :=
  match find (fun d => negb (Vector2Equals d (reverse previous))) (pressed f)
  with
  | Some d => d
  | None => previous
  end.

(** ** Runs of the snake *)

(** Moving up while only the Down key is held. *)
Definition upward_snake : Snake.t :=
  Snake.set_lastDirection dirUp (Snake.ctor GameSettings.Medium).

(** A frame on which only S is down. *)
Definition down_pressed : Frame :=
  mkFrame false true false false 1%Q (fun _ => 0).

(** The frames of a list, one [Snake::Update] each. *)
Definition Snake_run (frames : list Frame) (s : Snake.t) : Snake.t :=
  fold_left (fun s f => Snake.Update f s) frames s.

(** The number of frames of a run on which the schedule test passes. *)
Fixpoint advances (frames : list Frame) (s : Snake.t) : nat :=
  match frames with
  | [] => 0
  | f :: frames' =>
      (if Snake.due f s then 1 else 0) + advances frames' (Snake.Update f s)
  end.

(** The keys of no frame of the run change the direction. *)
Fixpoint steady (frames : list Frame) (s : Snake.t) : Prop :=
  match frames with
  | [] => True
  | f :: frames' =>
      resolved f s = Snake.lastDirection s /\ steady frames' (Snake.Update f s)
  end.

(** Four frames without keys, three of them due, from the initial snake. *)
Definition straight_frames : list Frame :=
  [ noKeys 1%Q (fun _ => 0); noKeys 1.1%Q (fun _ => 0);
    noKeys 1.5%Q (fun _ => 0); noKeys 2%Q (fun _ => 0) ].

(** Medium difficulty, an advance every 0.3 s.  The snake advances to the
    left at 1 s; W is held on a frame at 1.1 s and D on a frame at 1.2 s,
    both before the next advance is due; the next advance is at 1.4 s. *)
Definition frame_advance_1 : Frame := noKeys 1%Q (fun _ => 0).
Definition frame_W : Frame := mkFrame true false false false 1.1%Q (fun _ => 0).
Definition frame_D : Frame := mkFrame false false false true 1.2%Q (fun _ => 0).
Definition frame_advance_2 : Frame := noKeys 1.4%Q (fun _ => 0).

(** ** Concrete games *)

(** A generator that sweeps the board: iteration [k] of a sampling loop draws
    column [(start + k) mod 16] of row [(start + k) / 16 mod 16]. *)
Definition sweep (start : nat) (n : nat) : Z :=
  let k := Z.of_nat start + Z.of_nat n / 2 in
  if Z.of_nat n mod 2 =? 0 then k else k / 16.

(** The game of [main] when the first draw puts the apple at (300, 350), one
    cell to the left of the head. *)
Definition opening_state : GameCore.t :=
  GameCore.mk
    (Snake.mk 1 0.3%Q false [mkVector2 350 350; mkVector2 400 350]
              (mkVector2 (-1) 0) 0%Q)
    (Food.mk (mkVector2 300 350))
    (CollisionHandler.mk false false)
    (ScoreHandler.mk 0 2)
    false.

(** One frame a second, no key down. *)
Definition tick_at (time : Z) : nat * Frame :=
  (1%nat, noKeys (inject_Z time) (sweep 0)).

(** After the tick at 1 s: the head is on the cell of the apple, the apple
    has moved, the event and the growth are pending. *)
Definition eaten_state : GameCore.t :=
  GameCore.mk
    (Snake.mk 1 0.3%Q true [mkVector2 300 350; mkVector2 350 350]
              (mkVector2 (-1) 0) 1%Q)
    (Food.mk (mkVector2 50 50))
    (CollisionHandler.mk true false)
    (ScoreHandler.mk 0 2)
    false.

(** After the tick at 2 s. *)
Definition grown_state : GameCore.t :=
  GameCore.mk
    (Snake.mk 1 0.3%Q false
              [mkVector2 250 350; mkVector2 300 350; mkVector2 350 350]
              (mkVector2 (-1) 0) 2%Q)
    (Food.mk (mkVector2 50 50))
    (CollisionHandler.mk false false)
    (ScoreHandler.mk 10 3)
    false.

(** After the tick at 3 s. *)
Definition settled_state : GameCore.t :=
  GameCore.mk
    (Snake.mk 1 0.3%Q false
              [mkVector2 200 350; mkVector2 250 350; mkVector2 300 350]
              (mkVector2 (-1) 0) 3%Q)
    (Food.mk (mkVector2 50 50))
    (CollisionHandler.mk false false)
    (ScoreHandler.mk 10 3)
    false.

(** After the tick at 7 s: the head has left the board. *)
Definition crashed_state : GameCore.t :=
  GameCore.mk
    (Snake.mk 1 0.3%Q false
              [mkVector2 0 350; mkVector2 50 350; mkVector2 100 350]
              (mkVector2 (-1) 0) 7%Q)
    (Food.mk (mkVector2 50 50))
    (CollisionHandler.mk false true)
    (ScoreHandler.mk 10 3)
    true.

(** After the tick at 6 s: the head is on the leftmost column. *)
Definition brink_state : GameCore.t :=
  GameCore.mk
    (Snake.mk 1 0.3%Q false
              [mkVector2 50 350; mkVector2 100 350; mkVector2 150 350]
              (mkVector2 (-1) 0) 6%Q)
    (Food.mk (mkVector2 50 50))
    (CollisionHandler.mk false false)
    (ScoreHandler.mk 10 3)
    false.

(** ** The shape of the body *)

(** Two positions one cell apart along one axis. *)
Definition adjacent (a b : Vector2) : Prop :=
  exists d, is_direction d /\ a = Vector2Add b (Vector2Scale d cellSize).

(** A body in which every segment is one cell from the next. *)
Fixpoint chain (body : list Vector2) : Prop :=
  match body with
  | a :: ((b :: _) as rest) => adjacent a b /\ chain rest
  | _ => True
  end.

(** The largest value of the type [int] of the counters. *)
Definition INT_MAX : Z := 2147483647.

(** A flag as the number it adds to a count. *)
Definition pending (flag : bool) : Z := if flag then 1 else 0.

(** ** Rectangles on the screen *)

(** Two rectangles that share a point of positive area. *)
Definition overlap (r1 r2 : Rectangle.t) : Prop :=
  Rectangle.x r1 < Rectangle.x r2 + Rectangle.width r2
  /\ Rectangle.x r2 < Rectangle.x r1 + Rectangle.width r1
  /\ Rectangle.y r1 < Rectangle.y r2 + Rectangle.height r2
  /\ Rectangle.y r2 < Rectangle.y r1 + Rectangle.height r1.

(** A rectangle within the board. *)
Definition within_board (r1 : Rectangle.t) : Prop :=
  offset <= Rectangle.x r1
  /\ Rectangle.x r1 + Rectangle.width r1 <= offset + gridWidth
  /\ offset <= Rectangle.y r1
  /\ Rectangle.y r1 + Rectangle.height r1 <= offset + gridHeight.

(** The square a texture covers when drawn at a position. *)
Definition textureRect (texture : Texture2D.t) (posX posY : Z) : Rectangle.t :=
  Rectangle.mk posX posY (Texture2D.width texture) (Texture2D.height texture).

(** The square a drawing call paints, for the calls that paint one. *)
Definition drawn_area (c : DrawCall) : option Rectangle.t :=
  match c with
  | DrawTexture texture posX posY _ => Some (textureRect texture posX posY)
  | DrawRectangleRounded rec _ _ _ => Some rec
  | _ => None
  end.

(** The grid lines of [Background::Draw] through a coordinate. *)
Definition horizontal_line (atY : Z) : DrawCall :=
  DrawLine offset atY (offset + gridWidth) atY Background.GridColor.

Definition vertical_line (atX : Z) : DrawCall :=
  DrawLine atX offset atX (offset + gridHeight) Background.GridColor.

(** ** The sampling loop as a machine *)




(** A float holds these coordinates exactly, and on them the tolerance of
    raylib's [Vector2Equals], a millionth of the larger magnitude, stays
    below the distance of two integers: the comparison is equality. *)
Definition float_exact (v : Vector2) : Prop :=
  Z.abs (x v) <= 100000 /\ Z.abs (y v) <= 100000.

(** The test of raylib on one component,
    [fabsf(p - q) <= EPSILON * fmaxf(1, fmaxf(fabsf(p), fabsf(q)))] with
    [EPSILON] a millionth, both sides multiplied by a million. *)
Definition within_tolerance (p q : Z) : bool :=
  Z.abs (p - q) * 1000000 <=? Z.max 1 (Z.max (Z.abs p) (Z.abs q)).

Definition Vector2Equals_tolerant (p q : Vector2) : bool :=
  within_tolerance (x p) (x q) && within_tolerance (y p) (y q).

(** ** Further concrete inputs *)

(** Two frames without keys after the tick at 1 s, before the next advance
    is due. *)
Definition waiting_frames : list (nat * Frame) :=
  [ (0%nat, noKeys 1.1%Q (sweep 0)); (0%nat, noKeys 1.2%Q (sweep 0)) ].

(** [eaten_state] after these two frames: the event is scored, the growth
    still pending. *)
Definition waiting_state : GameCore.t :=
  GameCore.mk
    (Snake.mk 1 0.3%Q true [mkVector2 300 350; mkVector2 350 350]
              (mkVector2 (-1) 0) 1%Q)
    (Food.mk (mkVector2 50 50))
    (CollisionHandler.mk false false)
    (ScoreHandler.mk 10 3)
    false.

(** A head followed by 65536 segments elsewhere. *)
Definition long_snake : Snake.t :=
  Snake.set_snakeBody
    (mkVector2 50 50 :: repeat (mkVector2 100 50) (Z.to_nat 65536))
    (Snake.ctor GameSettings.Medium).

(** Frames on which one key is down. *)
Definition frame_W_at (time : Q) : Frame :=
  mkFrame true false false false time (sweep 0).

Definition frame_D_at (time : Q) : Frame :=
  mkFrame false false false true time (sweep 0).

(** The three-segment snake of [grown_state] after W was seen at 2.1 s. *)
Definition upturned_state : GameCore.t :=
  GameCore.mk
    (Snake.mk 1 0.3%Q false
              [mkVector2 250 350; mkVector2 300 350; mkVector2 350 350]
              (mkVector2 0 (-1)) 2%Q)
    (Food.mk (mkVector2 50 50))
    (CollisionHandler.mk false false)
    (ScoreHandler.mk 10 3)
    false.

(** And after D was seen at 2.2 s: it now faces its own neck. *)
Definition turned_state : GameCore.t :=
  GameCore.mk
    (Snake.mk 1 0.3%Q false
              [mkVector2 250 350; mkVector2 300 350; mkVector2 350 350]
              (mkVector2 1 0) 2%Q)
    (Food.mk (mkVector2 50 50))
    (CollisionHandler.mk false false)
    (ScoreHandler.mk 10 3)
    false.

(** The two-segment snake of [opening_state] after W at 0.1 s and D at
    0.2 s. *)
Definition turned_opening : GameCore.t :=
  GameCore.mk
    (Snake.mk 1 0.3%Q false [mkVector2 350 350; mkVector2 400 350]
              (mkVector2 1 0) 0%Q)
    (Food.mk (mkVector2 300 350))
    (CollisionHandler.mk false false)
    (ScoreHandler.mk 0 2)
    false.

(** * Properties *)

(** ** Vectors and cells *)

Lemma Vector2Equals_eq (p q : Vector2) : Vector2Equals p q = true <-> p = q.
Proof.
  destruct p as [px py], q as [qx qy]; unfold Vector2Equals; simpl.
  rewrite andb_true_iff, !Z.eqb_eq.
  split; [intros [-> ->]; reflexivity | intros [= -> ->]; auto].
Qed.

Lemma Vector2Equals_neq (p q : Vector2) : Vector2Equals p q = false <-> p <> q.
Proof.
  rewrite <- Vector2Equals_eq.
  destruct (Vector2Equals p q); split; congruence.
Qed.

Lemma Vector2Equals_refl (p : Vector2) : Vector2Equals p p = true.
Proof. apply Vector2Equals_eq; reflexivity. Qed.

Lemma cell_is_cell (cx cy : Z) :
  0 <= cx < cols -> 0 <= cy < rows -> is_cell (cell cx cy).
Proof.
  unfold is_cell, on_board, aligned, cell, cols, rows, gridWidth, gridHeight,
    cellSize, offset; simpl.
  change (800 / 50) with 16.
  intros Hx Hy.
  replace (cx * 50 + 50 - 50) with (cx * 50) by lia.
  replace (cy * 50 + 50 - 50) with (cy * 50) by lia.
  rewrite !Z.mod_mul by lia. lia.
Qed.

Lemma is_cell_cell (v : Vector2) :
  is_cell v -> exists cx cy, 0 <= cx < cols /\ 0 <= cy < rows /\ v = cell cx cy.
Proof.
  destruct v as [vx vy].
  unfold is_cell, on_board, aligned, cell, cols, rows, gridWidth, gridHeight,
    cellSize, offset; simpl.
  change (800 / 50) with 16.
  intros [[Hx Hy] [Ax Ay]].
  exists ((vx - 50) / 50), ((vy - 50) / 50).
  pose proof (Z.div_mod (vx - 50) 50 ltac:(lia)) as Dx.
  pose proof (Z.div_mod (vy - 50) 50 ltac:(lia)) as Dy.
  rewrite Ax in Dx. rewrite Ay in Dy.
  repeat split; try (f_equal; lia).
Qed.

(** ** The random generator *)

Lemma GetRandomValue_range (raw lo hi : Z) :
  lo <= hi -> lo <= GetRandomValue raw lo hi <= hi.
Proof.
  intros H. unfold GetRandomValue.
  destruct (hi <? lo) eqn:E; [apply Z.ltb_lt in E; lia|].
  pose proof (Z.mod_pos_bound raw (hi - lo + 1) ltac:(lia)). lia.
Qed.

Lemma drawn_is_cell (rand : nat -> Z) (k : nat) : is_cell (drawn rand k).
Proof.
  unfold drawn. apply cell_is_cell.
  - pose proof (GetRandomValue_range (rand (2 * k)%nat) 0 (rows - 1)).
    unfold rows, cols, gridHeight, gridWidth, cellSize in *.
    change (800 / 50) with 16 in *. lia.
  - pose proof (GetRandomValue_range (rand (S (2 * k))) 0 (cols - 1)).
    unfold rows, cols, gridHeight, gridWidth, cellSize in *.
    change (800 / 50) with 16 in *. lia.
Qed.

(** ** Food *)

Lemma shouldGenerateAgain_true (body : list Vector2) (pos : Vector2) :
  Food.shouldGenerateAgain body pos = true <-> In pos body.
Proof.
  unfold Food.shouldGenerateAgain. rewrite existsb_exists. split.
  - intros [b [Hb E]]. apply Vector2Equals_eq in E. subst; assumption.
  - intros H. exists pos. split; [assumption | apply Vector2Equals_refl].
Qed.

Lemma shouldGenerateAgain_false (body : list Vector2) (pos : Vector2) :
  Food.shouldGenerateAgain body pos = false <-> ~ In pos body.
Proof.
  rewrite <- shouldGenerateAgain_true.
  destruct (Food.shouldGenerateAgain body pos); split; congruence.
Qed.

Lemma generateRandomPos_from_S (fuel : nat) (rand : nat -> Z) (j : nat)
    (body : list Vector2) :
  Food.generateRandomPos_from (S fuel) rand (2 * j) body
  = if Food.shouldGenerateAgain body (drawn rand j)
    then Food.generateRandomPos_from fuel rand (2 * S j) body
    else Some (drawn rand j).
Proof.
  unfold drawn, cell. cbn [Food.generateRandomPos_from].
  replace (2 * S j)%nat with (S (S (2 * j))) by lia. reflexivity.
Qed.

(** The loop entered after [j] iterations returns the first draw from [j] on
    that is off the body. *)
Lemma generateRandomPos_from_first (rand : nat -> Z) (body : list Vector2) :
  forall (n j fuel : nat),
    (forall i, (j <= i < j + n)%nat -> In (drawn rand i) body) ->
    ~ In (drawn rand (j + n)) body ->
    (n < fuel)%nat ->
    Food.generateRandomPos_from fuel rand (2 * j) body
    = Some (drawn rand (j + n)).
Proof.
  induction n as [|n IH]; intros j fuel Hbusy Hfree Hfuel.
  - destruct fuel as [|fuel]; [lia|].
    rewrite Nat.add_0_r in *. rewrite generateRandomPos_from_S.
    apply shouldGenerateAgain_false in Hfree. rewrite Hfree. reflexivity.
  - destruct fuel as [|fuel]; [lia|].
    rewrite generateRandomPos_from_S.
    assert (Hj : In (drawn rand j) body) by (apply Hbusy; lia).
    apply shouldGenerateAgain_true in Hj. rewrite Hj.
    replace (j + S n)%nat with (S j + n)%nat in * by lia.
    apply IH; [intros i Hi; apply Hbusy; lia | assumption | lia].
Qed.

(** Whatever the loop returns is a draw off the body. *)
Lemma generateRandomPos_from_sound (rand : nat -> Z) (body : list Vector2) :
  forall (fuel j : nat) (pos : Vector2),
    Food.generateRandomPos_from fuel rand (2 * j) body = Some pos ->
    ~ In pos body /\ exists k, (j <= k < j + fuel)%nat /\ pos = drawn rand k.
Proof.
  induction fuel as [|fuel IH]; intros j pos H; [discriminate|].
  rewrite generateRandomPos_from_S in H.
  destruct (Food.shouldGenerateAgain body (drawn rand j)) eqn:E.
  - apply IH in H. destruct H as [Hfree [k [Hk ->]]].
    split; [assumption | exists k; split; [lia | reflexivity]].
  - injection H as <-. apply shouldGenerateAgain_false in E.
    split; [assumption | exists j; split; [lia | reflexivity]].
Qed.

Lemma generateRandomPos_sound (fuel : nat) (rand : nat -> Z)
    (body : list Vector2) (pos : Vector2) :
  Food.generateRandomPos fuel rand body = Some pos ->
  ~ In pos body /\ is_cell pos.
Proof.
  unfold Food.generateRandomPos. change O with (2 * 0)%nat. intros H.
  apply generateRandomPos_from_sound in H. destruct H as [Hfree [k [_ ->]]].
  split; [assumption | apply drawn_is_cell].
Qed.

(** The least iteration whose draw is off the body, when there is one. *)
Lemma first_free_draw (rand : nat -> Z) (body : list Vector2) (k : nat) :
  ~ In (drawn rand k) body ->
  exists n, (n <= k)%nat /\ ~ In (drawn rand n) body
            /\ forall i, (i < n)%nat -> In (drawn rand i) body.
Proof.
  induction k as [k IH] using lt_wf_ind. intros Hfree.
  destruct (existsb (fun i => negb (Food.shouldGenerateAgain body (drawn rand i)))
                    (seq 0 k)) eqn:E.
  - apply existsb_exists in E. destruct E as [i [Hi Hneg]].
    apply in_seq in Hi. apply negb_true_iff, shouldGenerateAgain_false in Hneg.
    destruct (IH i ltac:(lia) Hneg) as [n [Hn [Hnf Hnb]]].
    exists n. split; [lia | split; assumption].
  - exists k. split; [lia | split; [assumption|]].
    intros i Hi. apply shouldGenerateAgain_true.
    destruct (Food.shouldGenerateAgain body (drawn rand i)) eqn:Ei; [reflexivity|].
    exfalso. assert (Hex : existsb
      (fun i => negb (Food.shouldGenerateAgain body (drawn rand i))) (seq 0 k)
      = true).
    { apply existsb_exists. exists i. split; [apply in_seq; lia|].
      rewrite Ei. reflexivity. }
    congruence.
Qed.

(** The sampling finishes as soon as some draw is off the body. *)
Lemma generateRandomPos_terminates (rand : nat -> Z) (body : list Vector2)
    (k : nat) :
  ~ In (drawn rand k) body ->
  exists pos, forall fuel, (k < fuel)%nat ->
    Food.generateRandomPos fuel rand body = Some pos.
Proof.
  intros Hfree.
  destruct (first_free_draw rand body k Hfree) as [n [Hn [Hnf Hnb]]].
  exists (drawn rand n). intros fuel Hfuel.
  unfold Food.generateRandomPos. change O with (2 * 0)%nat.
  apply (generateRandomPos_from_first rand body n 0 fuel);
    [intros i Hi; apply Hnb; lia | assumption | lia].
Qed.

(** ** Lists: the deque operations *)

Lemma removelast_incl {A : Type} (l : list A) (a : A) :
  In a (removelast l) -> In a l.
Proof.
  induction l as [|b l IH]; simpl; [auto|].
  destruct l as [|c l]; [intros []|].
  intros [H|H]; [left; assumption | right; apply IH; assumption].
Qed.

Lemma removelast_NoDup {A : Type} (l : list A) :
  NoDup l -> NoDup (removelast l).
Proof.
  induction 1 as [|a l Hin Hnd IH]; simpl; [constructor|].
  destruct l as [|c l]; [constructor|].
  constructor; [|assumption].
  intros Hc. apply Hin. apply removelast_incl. assumption.
Qed.

Lemma removelast_cons {A : Type} (a : A) (l : list A) :
  l <> [] -> removelast (a :: l) = a :: removelast l.
Proof. destruct l; [congruence | reflexivity]. Qed.

Lemma removelast_length {A : Type} (l : list A) :
  List.length (removelast l) = Nat.pred (List.length l).
Proof.
  induction l as [|a l IH]; [reflexivity|].
  destruct l as [|b l]; [reflexivity|].
  change (removelast (a :: b :: l)) with (a :: removelast (b :: l)).
  simpl List.length in *. rewrite IH. reflexivity.
Qed.

Lemma skipn_nth {A : Type} (d : A) (l : list A) :
  forall i, (i < List.length l)%nat -> skipn i l = nth i l d :: skipn (S i) l.
Proof.
  induction l as [|a l IH]; intros i Hi; simpl in Hi; [lia|].
  destruct i as [|i]; [reflexivity|].
  simpl. apply IH. lia.
Qed.

(** ** The scan for self collision *)

Section SelfCollisionScan.

Variables (snakeHead : Vector2) (body : list Vector2)
          (c : CollisionHandler.t).

(** Bodies below the range of the counter: it never wraps. *)
Hypothesis body_short : Z.of_nat (List.length body) <= 65535.

Lemma selfCollisionScan_short :
  forall (n i : nat),
    (List.length body - i < n)%nat ->
    CollisionHandler.selfCollisionScan n (Z.of_nat i) snakeHead body c
    = Some (if existsb (Vector2Equals snakeHead) (skipn i body)
            then CollisionHandler.mk (CollisionHandler.foodEaten c) true
            else c).
Proof.
  induction n as [|n IH]; intros i Hn; [lia|].
  cbn [CollisionHandler.selfCollisionScan].
  destruct (Z.of_nat i <? Z.of_nat (List.length body)) eqn:E.
  - apply Z.ltb_lt in E. rewrite Nat2Z.id.
    rewrite (skipn_nth (mkVector2 0 0)) by lia.
    cbn [existsb].
    destruct (Vector2Equals snakeHead (nth i body (mkVector2 0 0)));
      [reflexivity|].
    cbn [orb].
    replace (CollisionHandler.ushort_next (Z.of_nat i))
      with (Z.of_nat (S i)).
    + apply IH. lia.
    + unfold CollisionHandler.ushort_next.
      rewrite Z.mod_small by lia. lia.
  - apply Z.ltb_ge in E.
    rewrite skipn_all2 by lia. reflexivity.
Qed.

Lemma selfCollisionHandle_short (s : Snake.t) :
  Snake.snakeBody s = body ->
  CollisionHandler.selfCollisionHandle snakeHead s c
  = Some (if existsb (Vector2Equals snakeHead) (tl body)
          then CollisionHandler.mk (CollisionHandler.foodEaten c) true
          else c).
Proof.
  intros Hb. unfold CollisionHandler.selfCollisionHandle. rewrite Hb.
  assert (Hs : Z.of_nat CollisionHandler.ushort_states = 65536)
    by (unfold CollisionHandler.ushort_states; rewrite Z2Nat.id; lia).
  change 1 with (Z.of_nat 1).
  rewrite selfCollisionScan_short by lia.
  destruct body; reflexivity.
Qed.

End SelfCollisionScan.

Lemma existsb_Vector2Equals (v : Vector2) (l : list Vector2) :
  existsb (Vector2Equals v) l = true <-> In v l.
Proof.
  rewrite existsb_exists. split.
  - intros [b [Hb E]]. apply Vector2Equals_eq in E. subst; assumption.
  - intros H. exists v. split; [assumption | apply Vector2Equals_refl].
Qed.

(** ** The cells of the board *)

Lemma board_cells_length : List.length board_cells = 256%nat.
Proof. reflexivity. Qed.

Lemma is_cell_board_cells (v : Vector2) : is_cell v -> In v board_cells.
Proof.
  intros H. apply is_cell_cell in H. destruct H as [cx [cy [Hx [Hy ->]]]].
  unfold board_cells. apply in_flat_map.
  exists (Z.to_nat cx). split; [apply in_seq; lia|].
  apply in_map_iff. exists (Z.to_nat cy).
  split; [rewrite !Z2Nat.id by lia; reflexivity | apply in_seq; lia].
Qed.

(** A body of distinct cells fits on the board. *)
Lemma body_fits (body : list Vector2) :
  NoDup body -> Forall is_cell body -> (List.length body <= 256)%nat.
Proof.
  intros Hnd Hcells. rewrite <- board_cells_length.
  apply NoDup_incl_length; [assumption|].
  intros v Hv. apply is_cell_board_cells.
  rewrite Forall_forall in Hcells. auto.
Qed.

(** ** Snake *)

Lemma getMoveDirection_eq (f : Frame) (s : Snake.t) :
  Snake.getMoveDirection f s
  = (Vector2Scale (resolved f s) cellSize,
     Snake.set_lastDirection (resolved f s) s).
Proof.
  unfold resolved, Snake.getMoveDirection. cbn [snd]. f_equal.
  destruct s as [d i a b l t]; unfold Snake.set_lastDirection; simpl.
  repeat match goal with
         | |- context [if ?b then _ else _] => destruct b
         end; reflexivity.
Qed.

Lemma resolved_cases (f : Frame) (s : Snake.t) :
  resolved f s = Snake.lastDirection s \/ is_direction (resolved f s).
Proof.
  unfold resolved, Snake.getMoveDirection, is_direction. cbn [snd].
  repeat match goal with
         | |- context [if ?b then _ else _] => destruct b
         end; simpl; auto.
Qed.

Lemma resolved_direction (f : Frame) (s : Snake.t) :
  is_direction (Snake.lastDirection s) -> is_direction (resolved f s).
Proof.
  intros H. destruct (resolved_cases f s) as [E|E]; [rewrite E|]; assumption.
Qed.

(** [Snake::Update], one equation per outcome of the schedule test. *)
Lemma Snake_Update_eq (f : Frame) (s : Snake.t) :
  Snake.Update f s
  = if Snake.due f s
    then Snake.mk (Snake.difficulty s) (Snake.interval s) false
           (if Snake.addSegment s
            then Vector2Add (Snake.head s)
                            (Vector2Scale (resolved f s) cellSize)
                 :: Snake.snakeBody s
            else removelast
                   (Vector2Add (Snake.head s)
                               (Vector2Scale (resolved f s) cellSize)
                    :: Snake.snakeBody s))
           (resolved f s) (currentTime f)
    else Snake.set_lastDirection (resolved f s) s.
Proof.
  unfold Snake.Update. rewrite getMoveDirection_eq.
  destruct s as [d i a b l t].
  unfold Snake.due, Snake.moveSnake, Snake.set_lastDirection,
    Snake.set_lastUpdateTime, Snake.set_snakeBody, Snake.set_addSegment,
    Snake.head.
  cbn [Snake.difficulty Snake.interval Snake.addSegment Snake.snakeBody
       Snake.lastDirection Snake.lastUpdateTime].
  destruct (Qle_bool i (currentTime f - t)); [|reflexivity].
  destruct a; reflexivity.
Qed.

(** ** Collision evaluation *)

Lemma outside_false (v : Vector2) : outside v = false <-> on_board v.
Proof.
  unfold outside, on_board.
  rewrite !orb_false_iff, !Z.ltb_ge, !Z.geb_leb, !Z.leb_gt. lia.
Qed.

Lemma outside_true (v : Vector2) : outside v = true <-> ~ on_board v.
Proof.
  rewrite <- outside_false. destruct (outside v); split; congruence.
Qed.

Lemma borderCollisionHandle_eq (v : Vector2) (c : CollisionHandler.t) :
  CollisionHandler.borderCollisionHandle v c
  = CollisionHandler.mk (CollisionHandler.foodEaten c)
                        (CollisionHandler.gameOver c || outside v).
Proof.
  unfold CollisionHandler.borderCollisionHandle. fold (outside v).
  destruct c as [fe go]; simpl.
  destruct (outside v); [rewrite orb_true_r | rewrite orb_false_r];
    reflexivity.
Qed.

Lemma handle_eq (fuel : nat) (rand : nat -> Z) (apple : Food.t)
    (s : Snake.t) (c : CollisionHandler.t) :
  Z.of_nat (List.length (Snake.snakeBody s)) <= 65535 ->
  CollisionHandler.handle fuel rand apple s c
  = if Vector2Equals (Snake.head s) (Food.applePos apple)
    then match Food.generateRandomPos fuel rand (Snake.snakeBody s) with
         | None => None
         | Some pos =>
             Some (verdict s c,
                   (Food.mk pos, Snake.set_addSegment true s,
                    CollisionHandler.mk true (verdict s c)))
         end
    else Some (verdict s c,
               (apple, s,
                CollisionHandler.mk (CollisionHandler.foodEaten c)
                                    (verdict s c))).
Proof.
  intros Hlen.
  unfold CollisionHandler.handle, CollisionHandler.foodCollisionHandle, verdict.
  destruct (Vector2Equals (Snake.head s) (Food.applePos apple)).
  - destruct (Food.generateRandomPos fuel rand (Snake.snakeBody s));
      [|reflexivity].
    rewrite borderCollisionHandle_eq.
    rewrite (selfCollisionHandle_short _ (Snake.snakeBody s))
      by (assumption || reflexivity).
    cbn [CollisionHandler.foodEaten CollisionHandler.gameOver].
    destruct (existsb _ (tl (Snake.snakeBody s)));
      [rewrite orb_true_r | rewrite orb_false_r]; reflexivity.
  - rewrite borderCollisionHandle_eq.
    rewrite (selfCollisionHandle_short _ (Snake.snakeBody s))
      by (assumption || reflexivity).
    cbn [CollisionHandler.foodEaten CollisionHandler.gameOver].
    destruct (existsb _ (tl (Snake.snakeBody s)));
      [rewrite orb_true_r | rewrite orb_false_r]; reflexivity.
Qed.

(** ** One tick of a running game *)

Lemma scored_eq (c : CollisionHandler.t) (s : ScoreHandler.t) :
  scored c s
  = if CollisionHandler.foodEaten c
    then ScoreHandler.mk (ScoreHandler.score s + 10) (ScoreHandler.length s + 1)
    else s.
Proof.
  unfold scored, ScoreHandler.Update.
  destruct (CollisionHandler.foodEaten c); reflexivity.
Qed.

Lemma Update_over (fuel : nat) (f : Frame) (g : GameCore.t) :
  GameCore.gameOver g = true -> GameCore.Update fuel f g = Some g.
Proof. intros H. unfold GameCore.Update. rewrite H. reflexivity. Qed.

Lemma Update_running (fuel : nat) (f : Frame) (g : GameCore.t) :
  GameCore.gameOver g = false ->
  CollisionHandler.gameOver (GameCore.collision g) = false ->
  let s1 := Snake.Update f (GameCore.playerSnake g) in
  Z.of_nat (List.length (Snake.snakeBody s1)) <= 65535 ->
  let sb1 := scored (GameCore.collision g) (GameCore.scoreBoard g) in
  let over := outside (Snake.head s1)
              || existsb (Vector2Equals (Snake.head s1))
                         (tl (Snake.snakeBody s1)) in
  GameCore.Update fuel f g
  = if Vector2Equals (Snake.head s1) (Food.applePos (GameCore.apple g))
    then match Food.generateRandomPos fuel (rand f) (Snake.snakeBody s1) with
         | None => None
         | Some pos =>
             Some (GameCore.mk (Snake.set_addSegment true s1) (Food.mk pos)
                               (CollisionHandler.mk true over) sb1 over)
         end
    else Some (GameCore.mk s1 (GameCore.apple g)
                           (CollisionHandler.mk false over) sb1 over).
Proof.
  intros Hrun Hflag s1 Hlen sb1 over.
  unfold GameCore.Update. rewrite Hrun. cbn [negb].
  fold s1. subst sb1. unfold scored.
  destruct (GameCore.collision g) as [fe go] eqn:Ec.
  cbn [CollisionHandler.gameOver] in Hflag. subst go.
  unfold ScoreHandler.Update. cbn [CollisionHandler.foodEaten CollisionHandler.gameOver].
  destruct fe; cbn [snd]; rewrite handle_eq by assumption;
    unfold verdict; cbn [CollisionHandler.gameOver CollisionHandler.foodEaten orb];
    fold over;
    destruct (Vector2Equals (Snake.head s1) (Food.applePos (GameCore.apple g)));
    try reflexivity;
    destruct (Food.generateRandomPos fuel (rand f) (Snake.snakeBody s1));
    reflexivity.
Qed.

(** ** The invariant of the game *)

Lemma aligned_step (v d : Vector2) :
  aligned v -> is_direction d -> aligned (Vector2Add v (Vector2Scale d cellSize)).
Proof.
  unfold aligned, Vector2Add, Vector2Scale, cellSize, offset.
  intros [Hx Hy] [ -> | [ -> | [ -> | -> ] ] ]; simpl;
    rewrite ?Z.add_0_r; split; try assumption.
  - replace (y v + -50 - 50) with (y v - 50 + (-1) * 50) by lia.
    rewrite Z.mod_add by lia. assumption.
  - replace (y v + 50 - 50) with (y v - 50 + 1 * 50) by lia.
    rewrite Z.mod_add by lia. assumption.
  - replace (x v + -50 - 50) with (x v - 50 + (-1) * 50) by lia.
    rewrite Z.mod_add by lia. assumption.
  - replace (x v + 50 - 50) with (x v - 50 + 1 * 50) by lia.
    rewrite Z.mod_add by lia. assumption.
Qed.

(** What [Snake::Update] does to the body: nothing, or a new head in front of
    the old body with or without its last segment. *)
Lemma Snake_Update_body (f : Frame) (s : Snake.t) :
  Snake.snakeBody s <> [] ->
  (Snake.due f s = false
   /\ Snake.snakeBody (Snake.Update f s) = Snake.snakeBody s)
  \/ (Snake.due f s = true
      /\ exists rest,
        Snake.snakeBody (Snake.Update f s)
        = Vector2Add (Snake.head s) (Vector2Scale (resolved f s) cellSize)
          :: rest
        /\ rest = if Snake.addSegment s then Snake.snakeBody s
                  else removelast (Snake.snakeBody s)).
Proof.
  intros Hne. rewrite Snake_Update_eq.
  destruct (Snake.due f s); [right | left]; split; try reflexivity.
  cbn [Snake.snakeBody].
  destruct (Snake.addSegment s); eexists; split; try reflexivity.
  apply removelast_cons. assumption.
Qed.

Lemma Snake_Update_lastDirection (f : Frame) (s : Snake.t) :
  Snake.lastDirection (Snake.Update f s) = resolved f s.
Proof.
  rewrite Snake_Update_eq. destruct (Snake.due f s); reflexivity.
Qed.

Lemma Inv_body_short (g : GameCore.t) (f : Frame) :
  Inv g -> GameCore.gameOver g = false ->
  Z.of_nat (List.length
              (Snake.snakeBody (Snake.Update f (GameCore.playerSnake g))))
  <= 257.
Proof.
  intros HI Hrun.
  destruct (Inv_running g HI Hrun) as [Hnd Hon].
  assert (Hfit : (List.length (Snake.snakeBody (GameCore.playerSnake g))
                  <= 256)%nat).
  { apply body_fits; [assumption|].
    pose proof (Inv_aligned g HI) as Hal.
    rewrite Forall_forall in *. intros v Hv. split; auto. }
  destruct (Snake_Update_body f (GameCore.playerSnake g) (Inv_nonempty g HI))
    as [[_ E] | [_ [rest [E Hrest]]]]; rewrite E; [lia|].
  cbn [List.length].
  destruct (Snake.addSegment (GameCore.playerSnake g)); subst rest;
    [|rewrite removelast_length]; lia.
Qed.

Lemma head_In (s : Snake.t) :
  Snake.snakeBody s <> [] -> In (Snake.head s) (Snake.snakeBody s).
Proof.
  unfold Snake.head. destruct (Snake.snakeBody s); [congruence | left; reflexivity].
Qed.

Lemma Forall_sub {A : Type} (P : A -> Prop) (l l' : list A) :
  (forall a, In a l' -> In a l) -> Forall P l -> Forall P l'.
Proof. rewrite !Forall_forall. auto. Qed.

(** The snake after its update, for a running game that satisfies the
    invariant. *)
Lemma Snake_Update_facts (f : Frame) (g : GameCore.t) :
  Inv g -> GameCore.gameOver g = false ->
  let s1 := Snake.Update f (GameCore.playerSnake g) in
  is_direction (Snake.lastDirection s1)
  /\ Snake.snakeBody s1 <> []
  /\ Forall aligned (Snake.snakeBody s1)
  /\ (Snake.head s1 <> Food.applePos (GameCore.apple g) ->
      ~ In (Food.applePos (GameCore.apple g)) (Snake.snakeBody s1))
  /\ (on_board (Snake.head s1) ->
      ~ In (Snake.head s1) (tl (Snake.snakeBody s1)) ->
      NoDup (Snake.snakeBody s1) /\ Forall on_board (Snake.snakeBody s1)).
Proof.
  intros HI Hrun s1.
  destruct HI as [_ Hdir Hne Hal _ Hfree Hrunning].
  destruct (Hrunning Hrun) as [Hnd Hon].
  set (s := GameCore.playerSnake g) in *.
  split; [unfold s1; rewrite Snake_Update_lastDirection;
          apply resolved_direction; assumption|].
  destruct (Snake_Update_body f s Hne) as [[_ E] | [_ [rest [E Hrest]]]];
    fold s1 in E.
  - unfold Snake.head. rewrite E. repeat split; auto.
  - assert (Hsub : forall a, In a rest -> In a (Snake.snakeBody s)).
    { intros a Ha. subst rest. destruct (Snake.addSegment s);
        [assumption | apply removelast_incl; assumption]. }
    assert (Hndr : NoDup rest).
    { subst rest. destruct (Snake.addSegment s);
        [assumption | apply removelast_NoDup; assumption]. }
    unfold Snake.head. rewrite E. cbn [hd tl].
    split; [discriminate|]. split; [|split].
    + constructor; [|apply (Forall_sub _ _ _ Hsub Hal)].
      apply aligned_step; [|apply resolved_direction; assumption].
      rewrite Forall_forall in Hal. apply Hal, head_In. assumption.
    + intros Hneq [Hin|Hin]; [congruence | apply Hfree, Hsub, Hin].
    + intros Hb Hself. split.
      * constructor; assumption.
      * constructor; [assumption | apply (Forall_sub _ _ _ Hsub Hon)].
Qed.

(** A completed tick of a running game, in terms of the updated snake. *)
Lemma Update_running_Inv (fuel : nat) (f : Frame) (g g' : GameCore.t) :
  Inv g -> GameCore.gameOver g = false ->
  GameCore.Update fuel f g = Some g' ->
  let s1 := Snake.Update f (GameCore.playerSnake g) in
  let over := outside (Snake.head s1)
              || existsb (Vector2Equals (Snake.head s1))
                         (tl (Snake.snakeBody s1)) in
  GameCore.scoreBoard g'
  = scored (GameCore.collision g) (GameCore.scoreBoard g)
  /\ GameCore.gameOver g' = over
  /\ CollisionHandler.gameOver (GameCore.collision g') = over
  /\ CollisionHandler.foodEaten (GameCore.collision g')
     = Vector2Equals (Snake.head s1) (Food.applePos (GameCore.apple g))
  /\ ((Snake.head s1 = Food.applePos (GameCore.apple g)
       /\ GameCore.playerSnake g' = Snake.set_addSegment true s1
       /\ Food.generateRandomPos fuel (rand f) (Snake.snakeBody s1)
          = Some (Food.applePos (GameCore.apple g')))
      \/ (Snake.head s1 <> Food.applePos (GameCore.apple g)
          /\ GameCore.playerSnake g' = s1
          /\ GameCore.apple g' = GameCore.apple g)).
Proof.
  intros HI Hrun HU s1 over.
  pose proof (Inv_body_short g f HI Hrun) as Hlen.
  rewrite Update_running in HU;
    [| assumption | rewrite (Inv_flags g HI); assumption
     | apply Z.le_trans with 257; [exact Hlen | lia]].
  fold s1 over in HU.
  destruct (Vector2Equals (Snake.head s1) (Food.applePos (GameCore.apple g)))
    eqn:E.
  - apply Vector2Equals_eq in E.
    destruct (Food.generateRandomPos fuel (rand f) (Snake.snakeBody s1))
      as [pos|] eqn:G; [|discriminate].
    injection HU as <-. cbn. repeat split; auto.
  - apply Vector2Equals_neq in E.
    injection HU as <-. cbn. repeat split; auto.
Qed.

Lemma verdict_false (s : Snake.t) :
  outside (Snake.head s)
  || existsb (Vector2Equals (Snake.head s)) (tl (Snake.snakeBody s)) = false
  <-> on_board (Snake.head s)
      /\ ~ In (Snake.head s) (tl (Snake.snakeBody s)).
Proof.
  rewrite orb_false_iff, outside_false.
  rewrite <- existsb_Vector2Equals.
  destruct (existsb (Vector2Equals (Snake.head s)) (tl (Snake.snakeBody s)));
    intuition congruence.
Qed.

Theorem Update_Inv (fuel : nat) (f : Frame) (g g' : GameCore.t) :
  Inv g -> GameCore.Update fuel f g = Some g' -> Inv g'.
Proof.
  intros HI HU.
  destruct (GameCore.gameOver g) eqn:Hrun.
  - rewrite Update_over in HU by assumption. injection HU as <-. assumption.
  - destruct (Update_running_Inv fuel f g g' HI Hrun HU)
      as [_ [Hover [Hflag [_ Hfood]]]].
    destruct (Snake_Update_facts f g HI Hrun)
      as [Hdir [Hne [Hal [Hfree Hrunning]]]].
    set (s1 := Snake.Update f (GameCore.playerSnake g)) in *.
    assert (Hb : Snake.snakeBody (GameCore.playerSnake g') = Snake.snakeBody s1
                 /\ Snake.lastDirection (GameCore.playerSnake g')
                    = Snake.lastDirection s1).
    { destruct Hfood as [[_ [-> _]] | [_ [-> _]]]; split; reflexivity. }
    destruct Hb as [Hb Hd].
    constructor; rewrite ?Hb, ?Hd; try assumption.
    + congruence.
    + destruct Hfood as [[_ [_ G]] | [_ [_ ->]]];
        [apply generateRandomPos_sound in G; tauto | apply (Inv_apple_cell g HI)].
    + destruct Hfood as [[_ [_ G]] | [Hneq [_ ->]]];
        [apply generateRandomPos_sound in G; tauto | auto].
    + intros Hrun'. rewrite Hover in Hrun'. apply verdict_false in Hrun'.
      destruct Hrun'. auto.
Qed.

Lemma ctor_Inv (fuel : nat) (rand : nat -> Z) (sDifficulty : string)
    (g : GameCore.t) :
  GameCore.ctor fuel rand sDifficulty = Some g -> Inv g.
Proof.
  unfold GameCore.ctor, Food.ctor. intros H.
  destruct (Food.generateRandomPos fuel rand _) as [pos|] eqn:G;
    [|discriminate].
  injection H as <-. apply generateRandomPos_sound in G. destruct G as [Hf Hc].
  constructor; cbn; try assumption.
  - reflexivity.
  - right; right; left; reflexivity.
  - discriminate.
  - constructor; [|constructor; [|constructor]]; split; reflexivity.
  - intros _. split.
    + constructor; [|constructor; [|constructor]]; cbn; intuition discriminate.
    + constructor; [|constructor; [|constructor]];
        unfold on_board, offset, gridWidth, gridHeight; cbn; lia.
Qed.

Theorem reachable_Inv (g : GameCore.t) : reachable g -> Inv g.
Proof.
  induction 1 as [fuel rand0 sD g H | fuel f g g' _ IH H].
  - apply (ctor_Inv _ _ _ _ H).
  - apply (Update_Inv _ _ _ _ IH H).
Qed.

(** ** Ticks of reachable games *)

Lemma Update_running_eq (fuel : nat) (f : Frame) (g : GameCore.t) :
  Inv g -> GameCore.gameOver g = false ->
  let s1 := Snake.Update f (GameCore.playerSnake g) in
  let sb1 := scored (GameCore.collision g) (GameCore.scoreBoard g) in
  let over := outside (Snake.head s1)
              || existsb (Vector2Equals (Snake.head s1))
                         (tl (Snake.snakeBody s1)) in
  GameCore.Update fuel f g
  = if Vector2Equals (Snake.head s1) (Food.applePos (GameCore.apple g))
    then match Food.generateRandomPos fuel (rand f) (Snake.snakeBody s1) with
         | None => None
         | Some pos =>
             Some (GameCore.mk (Snake.set_addSegment true s1) (Food.mk pos)
                               (CollisionHandler.mk true over) sb1 over)
         end
    else Some (GameCore.mk s1 (GameCore.apple g)
                           (CollisionHandler.mk false over) sb1 over).
Proof.
  intros HI Hrun.
  pose proof (Inv_body_short g f HI Hrun) as Hlen.
  apply Update_running;
    [assumption | rewrite (Inv_flags g HI); assumption
     | apply Z.le_trans with 257; [exact Hlen | lia]].
Qed.

(** A tick of a running game fails to complete only in the sampling loop. *)
Lemma Update_None (fuel : nat) (f : Frame) (g : GameCore.t) :
  Inv g -> GameCore.gameOver g = false ->
  GameCore.Update fuel f g = None ->
  let s1 := Snake.Update f (GameCore.playerSnake g) in
  Snake.head s1 = Food.applePos (GameCore.apple g)
  /\ Food.generateRandomPos fuel (rand f) (Snake.snakeBody s1) = None.
Proof.
  intros HI Hrun HU s1. rewrite Update_running_eq in HU by assumption.
  fold s1 in HU.
  destruct (Vector2Equals (Snake.head s1) (Food.applePos (GameCore.apple g)))
    eqn:E; [|discriminate].
  apply Vector2Equals_eq in E. split; [assumption|].
  destruct (Food.generateRandomPos fuel (rand f) (Snake.snakeBody s1));
    [discriminate | reflexivity].
Qed.

(** A tick completes, with one result for every large enough fuel, when some
    draw of the frame is off the moved body. *)
Lemma Update_completes (f : Frame) (g : GameCore.t) (k : nat) :
  Inv g -> GameCore.gameOver g = false ->
  ~ In (drawn (rand f) k)
       (Snake.snakeBody (Snake.Update f (GameCore.playerSnake g))) ->
  exists g1, forall fuel, (k < fuel)%nat -> GameCore.Update fuel f g = Some g1.
Proof.
  intros HI Hrun Hfree.
  destruct (generateRandomPos_terminates _ _ _ Hfree) as [pos Hpos].
  set (s1 := Snake.Update f (GameCore.playerSnake g)) in *.
  destruct (Vector2Equals (Snake.head s1) (Food.applePos (GameCore.apple g)))
    eqn:E.
  - eexists. intros fuel Hfuel.
    rewrite Update_running_eq by assumption. fold s1. rewrite E.
    rewrite Hpos by assumption. reflexivity.
  - eexists. intros fuel Hfuel.
    rewrite Update_running_eq by assumption. fold s1. rewrite E.
    reflexivity.
Qed.

(** The cell of the apple is neither off the board nor on the moved body
    behind the head: a tick that raises the food event leaves the game
    running. *)
Lemma event_not_over (fuel : nat) (f : Frame) (g g1 : GameCore.t) :
  Inv g -> GameCore.gameOver g = false ->
  GameCore.Update fuel f g = Some g1 ->
  CollisionHandler.foodEaten (GameCore.collision g1) = true ->
  GameCore.gameOver g1 = false.
Proof.
  intros HI Hrun HU Hev.
  destruct (Update_running_Inv fuel f g g1 HI Hrun HU)
    as [_ [Hover [_ [Hfe _]]]].
  rewrite Hfe in Hev. apply Vector2Equals_eq in Hev.
  rewrite Hover. apply verdict_false.
  set (s := GameCore.playerSnake g) in *.
  set (s1 := Snake.Update f s) in *.
  pose proof (Inv_apple_free g HI) as Hfree. fold s in Hfree.
  split.
  - rewrite Hev. apply (Inv_apple_cell g HI).
  - destruct (Snake_Update_body f s (Inv_nonempty g HI))
      as [[_ E] | [_ [rest [E Hrest]]]]; fold s1 in E.
    + exfalso. apply Hfree. rewrite <- Hev, <- E. apply head_In.
      rewrite E. apply (Inv_nonempty g HI).
    + rewrite E. cbn [tl]. intros Hin. apply Hfree. rewrite <- Hev.
      subst rest. destruct (Snake.addSegment s);
        [assumption | apply removelast_incl; assumption].
Qed.

Lemma In_tl_index {A : Type} (a : A) (l : list A) :
  In a (tl l) <-> exists i, (1 <= i)%nat /\ nth_error l i = Some a.
Proof.
  destruct l as [|b l]; cbn [tl].
  - split; [intros [] | intros [i [_ H]]; destruct i; discriminate].
  - split.
    + intros H. apply In_nth_error in H. destruct H as [n H].
      exists (S n). split; [lia | assumption].
    + intros [i [Hi H]]. destruct i as [|i]; [lia|].
      apply (nth_error_In l i H).
Qed.

Lemma exec_over (frames : list (nat * Frame)) (g : GameCore.t) :
  GameCore.gameOver g = true -> GameCore.exec frames g = Some g.
Proof.
  intros Hover. induction frames as [|[fuel f] frames IH]; [reflexivity|].
  cbn [GameCore.exec]. rewrite Update_over by assumption. assumption.
Qed.

Lemma exec_reachable (frames : list (nat * Frame)) :
  forall g g' : GameCore.t,
    reachable g -> GameCore.exec frames g = Some g' -> reachable g'.
Proof.
  induction frames as [|[fuel f] frames IH]; intros g g' Hr H; cbn in H.
  - injection H as <-. assumption.
  - destruct (GameCore.Update fuel f g) as [g1|] eqn:E; [|discriminate].
    apply (IH g1); [apply (reachable_Update fuel f g g1 Hr E) | assumption].
Qed.

Lemma scoreBoard_after (fuel : nat) (f : Frame) (g g' : GameCore.t) :
  Inv g -> GameCore.Update fuel f g = Some g' ->
  GameCore.scoreBoard g'
  = if GameCore.gameOver g then GameCore.scoreBoard g
    else scored (GameCore.collision g) (GameCore.scoreBoard g).
Proof.
  intros HI HU. destruct (GameCore.gameOver g) eqn:Hrun.
  - rewrite Update_over in HU by assumption. injection HU as <-. reflexivity.
  - apply (Update_running_Inv fuel f g g' HI Hrun HU).
Qed.

(** ** Runs of the snake *)

Lemma Snake_Update_nonempty (f : Frame) (s : Snake.t) :
  Snake.snakeBody s <> [] -> Snake.snakeBody (Snake.Update f s) <> [].
Proof.
  intros Hne.
  destruct (Snake_Update_body f s Hne) as [[_ E] | [_ [rest [E _]]]];
    rewrite E; [assumption | discriminate].
Qed.

Lemma Snake_Update_head (f : Frame) (s : Snake.t) :
  Snake.snakeBody s <> [] ->
  Snake.head (Snake.Update f s)
  = if Snake.due f s
    then Vector2Add (Snake.head s) (Vector2Scale (resolved f s) cellSize)
    else Snake.head s.
Proof.
  intros Hne. unfold Snake.head at 1.
  destruct (Snake_Update_body f s Hne) as [[D E] | [D [rest [E _]]]];
    rewrite E, D; reflexivity.
Qed.

Lemma linear_motion_run (frames : list Frame) :
  forall s : Snake.t,
    Snake.snakeBody s <> [] -> steady frames s ->
    Snake.head (Snake_run frames s)
    = Vector2Add (Snake.head s)
        (Vector2Scale (Vector2Scale (Snake.lastDirection s) cellSize)
                      (Z.of_nat (advances frames s))).
Proof.
  induction frames as [|f frames IH]; intros s Hne Hsteady.
  - cbn. destruct (Snake.head s) as [hx hy]. unfold Vector2Add, Vector2Scale.
    cbn. f_equal; lia.
  - destruct Hsteady as [Hres Hsteady].
    cbn [Snake_run fold_left advances]. fold (Snake_run frames (Snake.Update f s)).
    rewrite IH by (auto using Snake_Update_nonempty).
    rewrite Snake_Update_head by assumption.
    rewrite Snake_Update_lastDirection, Hres.
    destruct (Snake.due f s); destruct (Snake.head s) as [hx hy];
      unfold Vector2Add, Vector2Scale; cbn [x y]; f_equal; lia.
Qed.

Lemma moveSnake_head (direction : Vector2) (s : Snake.t) :
  Snake.snakeBody s <> [] ->
  Snake.snakeBody (Snake.moveSnake direction s) <> []
  /\ Snake.head (Snake.moveSnake direction s)
     = Vector2Add (Snake.head s) direction.
Proof.
  intros Hne. unfold Snake.moveSnake, Snake.head.
  cbn [Snake.set_snakeBody Snake.addSegment Snake.snakeBody].
  destruct (Snake.addSegment s); cbn [Snake.set_addSegment Snake.snakeBody hd].
  - split; [discriminate | reflexivity].
  - rewrite removelast_cons by assumption.
    split; [discriminate | reflexivity].
Qed.

Lemma linear_motion_iter (s : Snake.t) :
  Snake.snakeBody s <> [] ->
  forall (N : nat) (direction : Vector2),
    Snake.head (Nat.iter N (Snake.moveSnake direction) s)
    = Vector2Add (Snake.head s) (Vector2Scale direction (Z.of_nat N)).
Proof.
  intros Hne N direction.
  assert (H : Snake.snakeBody (Nat.iter N (Snake.moveSnake direction) s) <> []
              /\ Snake.head (Nat.iter N (Snake.moveSnake direction) s)
                 = Vector2Add (Snake.head s)
                              (Vector2Scale direction (Z.of_nat N))).
  { induction N as [|N [IHne IH]].
    - split; [assumption|]. cbn.
      destruct (Snake.head s) as [hx hy]. unfold Vector2Add, Vector2Scale.
      cbn. f_equal; lia.
    - rewrite Nat.iter_succ.
      destruct (moveSnake_head direction _ IHne) as [Hne' Hhead].
      split; [assumption|]. rewrite Hhead, IH.
      destruct (Snake.head s) as [hx hy], direction as [dx dy].
      unfold Vector2Add, Vector2Scale. cbn [x y]. f_equal; lia. }
  apply H.
Qed.

(** ** Concrete games *)

Lemma sweep_drawn (start k : nat) :
  drawn (sweep start) k
  = cell (Z.of_nat (start + k) mod 16) (Z.of_nat (start + k) / 16 mod 16).
Proof.
  unfold drawn, sweep, GetRandomValue, rows, cols, gridHeight, gridWidth,
    cellSize.
  change (800 / 50 - 1) with 15. cbn [Z.ltb Z.compare].
  replace (Z.of_nat (2 * k) mod 2 =? 0) with true
    by (symmetry; apply Z.eqb_eq; Z.div_mod_to_equations; lia).
  replace (Z.of_nat (S (2 * k)) mod 2 =? 0) with false
    by (symmetry; apply Z.eqb_neq; Z.div_mod_to_equations; lia).
  replace (Z.of_nat (2 * k) / 2) with (Z.of_nat k)
    by (Z.div_mod_to_equations; lia).
  replace (Z.of_nat (S (2 * k)) / 2) with (Z.of_nat k)
    by (Z.div_mod_to_equations; lia).
  change (15 - 0 + 1) with 16. rewrite !Z.add_0_r.
  rewrite <- Nat2Z.inj_add. reflexivity.
Qed.

Lemma sweep_covers (start : nat) : covers_board (sweep start).
Proof.
  intros c Hc. apply is_cell_cell in Hc.
  destruct Hc as [cx [cy [Hx [Hy ->]]]].
  unfold cols, rows, gridWidth, gridHeight, cellSize in Hx, Hy.
  change (800 / 50) with 16 in Hx, Hy.
  exists (Z.to_nat (cx + 16 * cy + 255 * Z.of_nat start)).
  rewrite sweep_drawn.
  replace (Z.of_nat (start + Z.to_nat (cx + 16 * cy + 255 * Z.of_nat start)))
    with (cx + (cy + 16 * Z.of_nat start) * 16) by lia.
  rewrite Z.mod_add by lia. rewrite (Z.mod_small cx) by lia.
  rewrite Z.div_add by lia. rewrite (Z.div_small cx) by lia.
  rewrite Z.add_0_l.
  replace (cy + 16 * Z.of_nat start) with (cy + Z.of_nat start * 16) by lia.
  rewrite Z.mod_add by lia. rewrite (Z.mod_small cy) by lia.
  reflexivity.
Qed.

Lemma opening_state_ctor : main_game 1 (sweep 101) = Some opening_state.
Proof. vm_compute. reflexivity. Qed.

Lemma eaten_state_Update :
  GameCore.Update 1 (snd (tick_at 1)) opening_state = Some eaten_state.
Proof. vm_compute. reflexivity. Qed.

Lemma grown_state_Update :
  GameCore.Update 1 (snd (tick_at 2)) eaten_state = Some grown_state.
Proof. vm_compute. reflexivity. Qed.

Lemma settled_state_Update :
  GameCore.Update 1 (snd (tick_at 3)) grown_state = Some settled_state.
Proof. vm_compute. reflexivity. Qed.

Lemma crashed_state_exec :
  GameCore.exec (map tick_at [1; 2; 3; 4; 5; 6; 7]) opening_state
  = Some crashed_state.
Proof. vm_compute. reflexivity. Qed.

Lemma opening_state_reachable : reachable opening_state.
Proof. apply (reachable_ctor _ _ _ _ opening_state_ctor). Qed.

Lemma eaten_state_reachable : reachable eaten_state.
Proof.
  apply (reachable_Update _ _ _ _ opening_state_reachable eaten_state_Update).
Qed.

Lemma grown_state_reachable : reachable grown_state.
Proof.
  apply (reachable_Update _ _ _ _ eaten_state_reachable grown_state_Update).
Qed.

Lemma crashed_state_reachable : reachable crashed_state.
Proof.
  apply (exec_reachable _ _ _ opening_state_reachable crashed_state_exec).
Qed.

Lemma brink_state_exec :
  GameCore.exec (map tick_at [1; 2; 3; 4; 5; 6]) opening_state
  = Some brink_state.
Proof. vm_compute. reflexivity. Qed.

Lemma brink_state_reachable : reachable brink_state.
Proof.
  apply (exec_reachable _ _ _ opening_state_reachable brink_state_exec).
Qed.

Lemma crashed_state_Update :
  GameCore.Update 1 (snd (tick_at 7)) brink_state = Some crashed_state.
Proof. vm_compute. reflexivity. Qed.

(** A tick that does not advance leaves the head where it was, on the body
    and so off the apple. *)
Lemma idle_no_event (f : Frame) (g : GameCore.t) :
  Inv g -> Snake.due f (GameCore.playerSnake g) = false ->
  Snake.Update f (GameCore.playerSnake g)
  = Snake.set_lastDirection (resolved f (GameCore.playerSnake g))
                            (GameCore.playerSnake g)
  /\ Vector2Equals (Snake.head (Snake.Update f (GameCore.playerSnake g)))
                   (Food.applePos (GameCore.apple g)) = false.
Proof.
  intros HI Hdue. rewrite Snake_Update_eq, Hdue. split; [reflexivity|].
  apply Vector2Equals_neq. intros Heq.
  apply (Inv_apple_free g HI). rewrite <- Heq.
  apply (head_In (GameCore.playerSnake g)). apply (Inv_nonempty g HI).
Qed.

Lemma running_head_safe (g : GameCore.t) :
  Inv g -> GameCore.gameOver g = false ->
  outside (Snake.head (GameCore.playerSnake g))
  || existsb (Vector2Equals (Snake.head (GameCore.playerSnake g)))
             (tl (Snake.snakeBody (GameCore.playerSnake g))) = false.
Proof.
  intros HI Hrun. apply verdict_false.
  destruct (Inv_running g HI Hrun) as [Hnd Hon].
  pose proof (Inv_nonempty g HI) as Hne. unfold Snake.head.
  destruct (Snake.snakeBody (GameCore.playerSnake g)) as [|h l];
    [congruence|].
  cbn [hd tl]. split; [inversion Hon | inversion Hnd]; assumption.
Qed.

(** A tick of a running game whose advance is not due: the whole next
    state. *)
Lemma Update_idle (fuel : nat) (f : Frame) (g : GameCore.t) :
  Inv g -> GameCore.gameOver g = false ->
  Snake.due f (GameCore.playerSnake g) = false ->
  GameCore.Update fuel f g
  = Some (GameCore.mk
            (Snake.set_lastDirection (resolved f (GameCore.playerSnake g))
                                     (GameCore.playerSnake g))
            (GameCore.apple g)
            (CollisionHandler.mk false false)
            (scored (GameCore.collision g) (GameCore.scoreBoard g))
            false).
Proof.
  intros HI Hrun Hdue.
  rewrite Update_running_eq by assumption.
  destruct (idle_no_event f g HI Hdue) as [Hs1 He].
  rewrite He, Hs1.
  change (Snake.head (Snake.set_lastDirection _ (GameCore.playerSnake g)))
    with (Snake.head (GameCore.playerSnake g)).
  cbn [Snake.set_lastDirection Snake.snakeBody].
  rewrite (running_head_safe g HI Hrun). reflexivity.
Qed.

(** A run of ticks none of which is due: it completes, and it leaves the
    body, the growth flag, the schedule and the apple as they were; the
    counters take in a pending food event at the first tick. *)
Lemma exec_idle (frames : list (nat * Frame)) :
  forall g : GameCore.t,
    Inv g -> GameCore.gameOver g = false ->
    Forall (fun tick => Snake.due (snd tick) (GameCore.playerSnake g) = false)
           frames ->
    exists g' : GameCore.t,
      GameCore.exec frames g = Some g'
      /\ Inv g'
      /\ GameCore.gameOver g' = false
      /\ Snake.snakeBody (GameCore.playerSnake g')
         = Snake.snakeBody (GameCore.playerSnake g)
      /\ Snake.addSegment (GameCore.playerSnake g')
         = Snake.addSegment (GameCore.playerSnake g)
      /\ Snake.interval (GameCore.playerSnake g')
         = Snake.interval (GameCore.playerSnake g)
      /\ Snake.lastUpdateTime (GameCore.playerSnake g')
         = Snake.lastUpdateTime (GameCore.playerSnake g)
      /\ GameCore.apple g' = GameCore.apple g
      /\ GameCore.scoreBoard g'
         = match frames with
           | [] => GameCore.scoreBoard g
           | _ :: _ => scored (GameCore.collision g) (GameCore.scoreBoard g)
           end
      /\ CollisionHandler.foodEaten (GameCore.collision g')
         = match frames with
           | [] => CollisionHandler.foodEaten (GameCore.collision g)
           | _ :: _ => false
           end.
Proof.
  induction frames as [|[fuel f] frames IH]; intros g HI Hrun Hall.
  - exists g. split; [reflexivity|]. split; [exact HI|].
    split; [exact Hrun|]. repeat split.
  - inversion Hall as [|? ? Hf Hrest]; subst. cbn [snd] in Hf.
    pose proof (Update_idle fuel f g HI Hrun Hf) as HU.
    pose proof (Update_Inv fuel f g _ HI HU) as HI1.
    cbn [GameCore.exec]. rewrite HU.
    destruct (IH _ HI1 eq_refl Hrest)
      as [g' [He [HI' [Hrun' [Hb [Ha [Hi [Ht [Hap [Hsb Hfe]]]]]]]]]].
    exists g'. split; [exact He|]. split; [exact HI'|].
    split; [exact Hrun'|].
    cbn [GameCore.playerSnake GameCore.apple GameCore.scoreBoard
         GameCore.collision Snake.set_lastDirection Snake.snakeBody
         Snake.addSegment Snake.interval Snake.lastUpdateTime
         CollisionHandler.foodEaten] in *.
    repeat split; try assumption.
    + rewrite Hsb. destruct frames; [reflexivity|].
      rewrite scored_eq. reflexivity.
    + rewrite Hfe. destruct frames; reflexivity.
Qed.




Lemma waiting_state_exec :
  GameCore.exec waiting_frames eaten_state = Some waiting_state.
Proof. vm_compute. reflexivity. Qed.

(** * The claims *)


(** ** Difficulty *)

(** C8.  The interval lookup maps Easy to 0.5 s, Medium to 0.3 s, Hard to
    0.1 s and every other value of the enumeration type to 0.6 s; the
    parsing of a difficulty name maps every string other than "Easy",
    "Medium" and "Hard" to Easy (and these three to themselves). *)
Theorem difficulty_fallbacks :
  GameSettings.getInterval GameSettings.Easy = 0.5%Q
  /\ GameSettings.getInterval GameSettings.Medium = 0.3%Q
  /\ GameSettings.getInterval GameSettings.Hard = 0.1%Q
  /\ (forall d : GameSettings.Difficulty,
         d <> GameSettings.Easy -> d <> GameSettings.Medium ->
         d <> GameSettings.Hard ->
         GameSettings.getInterval d = 0.6%Q)
  /\ GameSettings.setDifficulty "Easy" = GameSettings.Easy
  /\ GameSettings.setDifficulty "Medium" = GameSettings.Medium
  /\ GameSettings.setDifficulty "Hard" = GameSettings.Hard
  /\ (forall name : string,
         name <> "Easy"%string -> name <> "Medium"%string ->
         name <> "Hard"%string ->
         GameSettings.setDifficulty name = GameSettings.Easy).
Proof.
  repeat split.
  - intros d HE HM HH.
    unfold GameSettings.Easy, GameSettings.Medium, GameSettings.Hard in *.
    destruct d as [|p|p]; [congruence | | reflexivity].
    destruct p as [p|p|]; [reflexivity | | congruence].
    destruct p; [reflexivity | reflexivity | congruence].
  - intros name HE HM HH. unfold GameSettings.setDifficulty.
    apply String.eqb_neq in HE, HM, HH. rewrite HE, HM, HH. reflexivity.
Qed.

Lemma difficulty_fallbacks_witness :
  GameSettings.getInterval 7 = 0.6%Q
  /\ GameSettings.setDifficulty "Insane" = GameSettings.Easy.
Proof.
  destruct difficulty_fallbacks as [_ [_ [_ [Hvalue [_ [_ [_ Hname]]]]]]].
  split.
  - apply Hvalue; discriminate.
  - apply Hname; discriminate.
Defined.

(** ** Direction resolution *)

(** C6.  For every previous direction and every set of pressed keys,
    [getMoveDirection] stores the first of Up, Down, Left, Right that is
    pressed and is not the exact reverse of the previous direction, keeps the
    previous direction when no pressed key qualifies, and returns the stored
    direction scaled by the cell size; pressing only the exact opposite of
    the current direction leaves the direction unchanged. *)
Theorem direction_resolution (f : Frame) (s : Snake.t) :
  is_direction (Snake.lastDirection s) ->
  Snake.getMoveDirection f s
  = (Vector2Scale (first_admissible (Snake.lastDirection s) f) cellSize,
     Snake.set_lastDirection (first_admissible (Snake.lastDirection s) f) s)
  /\ (pressed f = [reverse (Snake.lastDirection s)] ->
      snd (Snake.getMoveDirection f s) = s).
Proof.
  intros Hdir.
  assert (E : resolved f s = first_admissible (Snake.lastDirection s) f).
  { unfold resolved, Snake.getMoveDirection, first_admissible, pressed.
    cbn [snd].
    destruct s as [d i a b previous t].
    cbn [Snake.lastDirection] in *.
    destruct Hdir as [ -> | [ -> | [ -> | -> ] ] ];
      destruct (keyW f), (keyS f), (keyA f), (keyD f); reflexivity. }
  rewrite getMoveDirection_eq, E. split; [reflexivity|].
  intros Hp. cbn [snd]. unfold first_admissible. rewrite Hp.
  cbn [find]. rewrite Vector2Equals_refl. cbn [negb].
  destruct s; reflexivity.
Qed.

Lemma direction_resolution_witness :
  is_direction (Snake.lastDirection upward_snake)
  /\ pressed down_pressed = [reverse (Snake.lastDirection upward_snake)]
  /\ Snake.getMoveDirection down_pressed upward_snake
     = (mkVector2 0 (-50), upward_snake)
  /\ snd (Snake.getMoveDirection down_pressed upward_snake) = upward_snake.
Proof.
  assert (Hdir : is_direction (Snake.lastDirection upward_snake))
    by (left; reflexivity).
  destruct (direction_resolution down_pressed upward_snake Hdir) as [E H].
  split; [exact Hdir|]. split; [reflexivity|]. split.
  - rewrite E. reflexivity.
  - apply H. reflexivity.
Defined.

(** ** Movement *)

(** C5.  An advance puts the old head plus the direction times the cell size
    at the front; with the growth flag set it clears the flag and keeps the
    tail (one segment more), otherwise it removes the tail (same number of
    segments).  A frame before the interval has elapsed leaves the body, the
    flag and the time of the last advance as they were.  Hence a run whose
    keys never change the direction puts the head at the initial head plus
    N times (direction times cell size), N being the number of advances of the
    run; and so do N calls of [moveSnake] with one direction. *)
Theorem movement_schedule (f : Frame) (s : Snake.t) :
  Snake.snakeBody s <> [] ->
  (Snake.due f s = true ->
   Snake.snakeBody (Snake.Update f s)
   = Vector2Add (Snake.head s) (Vector2Scale (resolved f s) cellSize)
     :: (if Snake.addSegment s then Snake.snakeBody s
         else removelast (Snake.snakeBody s))
   /\ Snake.addSegment (Snake.Update f s) = false
   /\ List.length (Snake.snakeBody (Snake.Update f s))
      = ((if Snake.addSegment s then 1 else 0)
         + List.length (Snake.snakeBody s))%nat)
  /\ (Snake.due f s = false ->
      Snake.snakeBody (Snake.Update f s) = Snake.snakeBody s
      /\ Snake.addSegment (Snake.Update f s) = Snake.addSegment s
      /\ Snake.lastUpdateTime (Snake.Update f s) = Snake.lastUpdateTime s)
  /\ (forall frames : list Frame,
         steady frames s ->
         Snake.head (Snake_run frames s)
         = Vector2Add (Snake.head s)
             (Vector2Scale (Vector2Scale (Snake.lastDirection s) cellSize)
                           (Z.of_nat (advances frames s))))
  /\ (forall (N : nat) (direction : Vector2),
         Snake.head (Nat.iter N (Snake.moveSnake direction) s)
         = Vector2Add (Snake.head s) (Vector2Scale direction (Z.of_nat N))).
Proof.
  intros Hne. split; [|split; [|split]]; [| | |apply linear_motion_iter; assumption].
  - intros Hdue. rewrite Snake_Update_eq, Hdue.
    cbn [Snake.snakeBody Snake.addSegment].
    destruct (Snake.addSegment s).
    + repeat split.
    + rewrite removelast_cons by assumption. repeat split.
      cbn [List.length]. rewrite removelast_length.
      destruct (Snake.snakeBody s); [congruence | reflexivity].
  - intros Hdue. rewrite Snake_Update_eq, Hdue. repeat split.
  - intros frames Hsteady. apply linear_motion_run; assumption.
Qed.

Lemma movement_schedule_witness :
  let s := Snake.ctor GameSettings.Medium in
  let s1 := Snake.Update (noKeys 1%Q (fun _ => 0)) s in
  Snake.snakeBody s1 = [mkVector2 300 350; mkVector2 350 350]
  /\ Snake.snakeBody (Snake.Update (noKeys 1.1%Q (fun _ => 0)) s1)
     = Snake.snakeBody s1
  /\ advances straight_frames s = 3%nat
  /\ Snake.head (Snake_run straight_frames s) = mkVector2 200 350
  /\ Snake.head (Nat.iter 3 (Snake.moveSnake (mkVector2 (-50) 0)) s)
     = mkVector2 200 350.
Proof.
  intros s s1.
  assert (Hne : Snake.snakeBody s <> []) by discriminate.
  assert (Hne1 : Snake.snakeBody s1 <> []) by discriminate.
  destruct (movement_schedule (noKeys 1%Q (fun _ => 0)) s Hne)
    as [Hdue [_ [Hrun Hiter]]].
  destruct (movement_schedule (noKeys 1.1%Q (fun _ => 0)) s1 Hne1)
    as [_ [Hwait _]].
  split; [|split; [|split; [|split]]].
  - apply (proj1 (Hdue eq_refl)).
  - apply (proj1 (Hwait eq_refl)).
  - reflexivity.
  - rewrite (Hrun straight_frames); [reflexivity|].
    cbn. repeat split.
  - rewrite (Hiter 3%nat (mkVector2 (-50) 0)). reflexivity.
Defined.

(** ** Reversal between two advances *)

(** C9.  [Snake::Update] stores the resolved direction on every frame, due or
    not, and resolves against the stored direction; so W and then D, held on
    two frames between two advances of a snake moving left, make the next
    advance go right, the exact reverse of the previous advance. *)
Theorem reversal_between_advances :
  (forall (f : Frame) (s : Snake.t),
      Snake.lastDirection (Snake.Update f s)
      = Snake.lastDirection (snd (Snake.getMoveDirection f s)))
  /\ (let s0 := Snake.ctor GameSettings.Medium in
      let s1 := Snake.Update frame_advance_1 s0 in
      let s2 := Snake.Update frame_W s1 in
      let s3 := Snake.Update frame_D s2 in
      let s4 := Snake.Update frame_advance_2 s3 in
      Snake.due frame_advance_1 s0 = true
      /\ Snake.head s1
         = Vector2Add (Snake.head s0) (Vector2Scale dirLeft cellSize)
      /\ Snake.due frame_W s1 = false
      /\ Snake.lastDirection s2 = dirUp
      /\ Snake.due frame_D s2 = false
      /\ Snake.lastDirection s3 = dirRight
      /\ Snake.snakeBody s3 = Snake.snakeBody s1
      /\ Snake.due frame_advance_2 s3 = true
      /\ Snake.head s4
         = Vector2Add (Snake.head s3)
                      (Vector2Scale (reverse dirLeft) cellSize)).
Proof.
  split.
  - intros f s. apply Snake_Update_lastDirection.
  - cbv zeta. repeat split.
Qed.

(** ** The game-over latch *)

(** C3.  Once the game-over flag of [GameCore] is set, a tick returns the
    state it was given, and so does any number of ticks: the snake body, the
    direction, the food position, the score and the length stay as they were
    and the flag stays set. *)
Theorem game_over_latch (g : GameCore.t) :
  GameCore.gameOver g = true ->
  (forall (fuel : nat) (f : Frame), GameCore.Update fuel f g = Some g)
  /\ (forall frames : list (nat * Frame), GameCore.exec frames g = Some g)
  /\ (forall (frames : list (nat * Frame)) (g' : GameCore.t),
         GameCore.exec frames g = Some g' ->
         Snake.snakeBody (GameCore.playerSnake g')
         = Snake.snakeBody (GameCore.playerSnake g)
         /\ Snake.lastDirection (GameCore.playerSnake g')
            = Snake.lastDirection (GameCore.playerSnake g)
         /\ Food.applePos (GameCore.apple g') = Food.applePos (GameCore.apple g)
         /\ ScoreHandler.score (GameCore.scoreBoard g')
            = ScoreHandler.score (GameCore.scoreBoard g)
         /\ ScoreHandler.length (GameCore.scoreBoard g')
            = ScoreHandler.length (GameCore.scoreBoard g)
         /\ GameCore.gameOver g' = true).
Proof.
  intros Hover. split; [|split].
  - intros fuel f. apply Update_over. assumption.
  - intros frames. apply exec_over. assumption.
  - intros frames g' H. rewrite exec_over in H by assumption.
    injection H as <-. repeat split. assumption.
Qed.

Lemma game_over_latch_witness :
  GameCore.gameOver crashed_state = true
  /\ GameCore.Update 1 (snd (tick_at 8)) crashed_state = Some crashed_state
  /\ GameCore.exec (map tick_at [8; 9; 10]) crashed_state = Some crashed_state
  /\ Snake.snakeBody (GameCore.playerSnake crashed_state)
     = [mkVector2 0 350; mkVector2 50 350; mkVector2 100 350].
Proof.
  destruct (game_over_latch crashed_state eq_refl) as [Htick [Hexec Hfields]].
  split; [reflexivity|]. split; [apply Htick|]. split; [apply Hexec|].
  apply (Hfields (map tick_at [8; 9; 10]) crashed_state (Hexec _)).
Defined.

(** ** The food spawner *)




(** ** The verdict of the collision evaluation *)

(** C4.  In a tick that starts with game-over false, the collision
    evaluation sets game-over (the flag of the handler and the flag of
    [GameCore]) to true exactly when the head after the movement is outside
    the rectangle [offset, offset+gridWidth) x [offset, offset+gridHeight) or
    equals a body segment of index at least 1.  The evaluation itself always
    finishes; the tick can only fail to complete inside the sampling loop of
    the food spawner. *)
Theorem collision_verdict (g : GameCore.t) (fuel : nat) (f : Frame) :
  reachable g -> GameCore.gameOver g = false ->
  (forall g' : GameCore.t,
      GameCore.Update fuel f g = Some g' ->
      let snakeHead := Snake.head (GameCore.playerSnake g') in
      Snake.snakeBody (GameCore.playerSnake g')
      = Snake.snakeBody (Snake.Update f (GameCore.playerSnake g))
      /\ CollisionHandler.gameOver (GameCore.collision g')
         = GameCore.gameOver g'
      /\ (GameCore.gameOver g' = true <->
          ~ (offset <= x snakeHead < offset + gridWidth
             /\ offset <= y snakeHead < offset + gridHeight)
          \/ exists i, (1 <= i)%nat
                       /\ nth_error (Snake.snakeBody (GameCore.playerSnake g')) i
                          = Some snakeHead))
  /\ (GameCore.Update fuel f g = None ->
      Snake.head (Snake.Update f (GameCore.playerSnake g))
      = Food.applePos (GameCore.apple g)
      /\ Food.generateRandomPos fuel (rand f)
           (Snake.snakeBody (Snake.Update f (GameCore.playerSnake g)))
         = None).
Proof.
  intros Hreach Hrun. pose proof (reachable_Inv g Hreach) as HI.
  split; [|apply Update_None; assumption].
  intros g' HU snakeHead.
  destruct (Update_running_Inv fuel f g g' HI Hrun HU)
    as [_ [Hover [Hflag [_ Hfood]]]].
  set (s1 := Snake.Update f (GameCore.playerSnake g)) in *.
  assert (Hb : Snake.snakeBody (GameCore.playerSnake g') = Snake.snakeBody s1).
  { destruct Hfood as [[_ [-> _]] | [_ [-> _]]]; reflexivity. }
  assert (Hh : snakeHead = Snake.head s1).
  { unfold snakeHead, Snake.head. rewrite Hb. reflexivity. }
  split; [assumption|]. split; [congruence|].
  rewrite Hover, Hb, Hh, <- In_tl_index.
  fold (on_board (Snake.head s1)).
  rewrite orb_true_iff, outside_true, existsb_Vector2Equals. reflexivity.
Qed.

Lemma collision_verdict_witness :
  reachable brink_state
  /\ GameCore.gameOver brink_state = false
  /\ GameCore.Update 1 (snd (tick_at 7)) brink_state = Some crashed_state
  /\ GameCore.gameOver crashed_state = true
  /\ (~ (offset <= 0 < offset + gridWidth /\ offset <= 350 < offset + gridHeight)
      \/ exists i, (1 <= i)%nat
                   /\ nth_error [mkVector2 0 350; mkVector2 50 350;
                                 mkVector2 100 350] i
                      = Some (mkVector2 0 350))
  /\ GameCore.Update 0 (snd (tick_at 1)) opening_state = None
  /\ Food.generateRandomPos 0 (sweep 0)
       [mkVector2 300 350; mkVector2 350 350] = None.
Proof.
  destruct (collision_verdict opening_state 0 (snd (tick_at 1))
              opening_state_reachable eq_refl) as [_ Hfails].
  destruct (collision_verdict brink_state 1 (snd (tick_at 7))
              brink_state_reachable eq_refl) as [Hdone _].
  destruct (Hdone crashed_state crashed_state_Update) as [_ [_ Hiff]].
  split; [apply brink_state_reachable|]. split; [reflexivity|].
  split; [apply crashed_state_Update|]. split; [reflexivity|].
  split; [apply (proj1 Hiff); reflexivity|].
  split; [reflexivity|].
  apply (proj2 (Hfails eq_refl)).
Defined.

(** ** The apple and the body *)

(** C10.  In every state the program reaches, and so at the end of every
    completed collision evaluation, with or without a food event, the apple
    is on no cell of the snake body; when the head lands on the apple the
    evaluation raises the event and replaces the apple by the result of the
    sampling loop run against the current body, a cell of the board off the
    body.  The evaluation completes as soon as a draw of the frame is off the
    body. *)
Theorem apple_off_body (g : GameCore.t) :
  reachable g ->
  ~ In (Food.applePos (GameCore.apple g))
       (Snake.snakeBody (GameCore.playerSnake g))
  /\ (forall (fuel : nat) (f : Frame) (g' : GameCore.t),
         GameCore.gameOver g = false ->
         GameCore.Update fuel f g = Some g' ->
         ~ In (Food.applePos (GameCore.apple g'))
              (Snake.snakeBody (GameCore.playerSnake g'))
         /\ (Snake.head (GameCore.playerSnake g')
             = Food.applePos (GameCore.apple g) ->
             CollisionHandler.foodEaten (GameCore.collision g') = true
             /\ Food.generateRandomPos fuel (rand f)
                  (Snake.snakeBody (GameCore.playerSnake g'))
                = Some (Food.applePos (GameCore.apple g'))
             /\ is_cell (Food.applePos (GameCore.apple g'))
             /\ Food.applePos (GameCore.apple g')
                <> Food.applePos (GameCore.apple g)))
  /\ (forall (f : Frame) (k : nat),
         GameCore.gameOver g = false ->
         ~ In (drawn (rand f) k)
              (Snake.snakeBody (Snake.Update f (GameCore.playerSnake g))) ->
         exists g', forall fuel, (k < fuel)%nat ->
                                 GameCore.Update fuel f g = Some g').
Proof.
  intros Hreach. pose proof (reachable_Inv g Hreach) as HI.
  split; [apply (Inv_apple_free g HI)|].
  split; [|intros f k Hrun Hfree; apply (Update_completes f g k HI Hrun Hfree)].
  intros fuel f g' Hrun HU.
  pose proof (Update_Inv fuel f g g' HI HU) as HI'.
  split; [apply (Inv_apple_free g' HI')|].
  intros Hland.
  destruct (Update_running_Inv fuel f g g' HI Hrun HU)
    as [_ [_ [_ [Hfe Hfood]]]].
  set (s1 := Snake.Update f (GameCore.playerSnake g)) in *.
  assert (Hb : Snake.snakeBody (GameCore.playerSnake g') = Snake.snakeBody s1).
  { destruct Hfood as [[_ [-> _]] | [_ [-> _]]]; reflexivity. }
  assert (Hh : Snake.head (GameCore.playerSnake g') = Snake.head s1).
  { unfold Snake.head. rewrite Hb. reflexivity. }
  rewrite Hh in Hland.
  destruct Hfood as [[_ [_ G]] | [Hneq _]]; [|contradiction].
  split; [rewrite Hfe; apply Vector2Equals_eq; assumption|].
  split; [rewrite Hb; assumption|].
  split; [apply (Inv_apple_cell g' HI')|].
  intros Heq. apply (Inv_apple_free g' HI'). rewrite Heq, <- Hland, <- Hh.
  apply head_In. apply (Inv_nonempty g' HI').
Qed.

Lemma apple_off_body_witness :
  reachable opening_state
  /\ GameCore.gameOver opening_state = false
  /\ GameCore.Update 1 (snd (tick_at 1)) opening_state = Some eaten_state
  /\ Snake.head (GameCore.playerSnake eaten_state) = mkVector2 300 350
  /\ Food.applePos (GameCore.apple opening_state) = mkVector2 300 350
  /\ ~ In (mkVector2 50 50) [mkVector2 300 350; mkVector2 350 350]
  /\ CollisionHandler.foodEaten (GameCore.collision eaten_state) = true
  /\ (exists g', forall fuel, (0 < fuel)%nat ->
         GameCore.Update fuel (snd (tick_at 1)) opening_state = Some g').
Proof.
  destruct (apple_off_body opening_state opening_state_reachable)
    as [_ [Htick Hcompletes]].
  destruct (Htick 1%nat (snd (tick_at 1)) eaten_state eq_refl
              eaten_state_Update) as [Hoff Hland].
  destruct (Hland eq_refl) as [Hev _].
  split; [apply opening_state_reachable|]. split; [reflexivity|].
  split; [apply eaten_state_Update|]. split; [reflexivity|].
  split; [reflexivity|]. split; [exact Hoff|]. split; [exact Hev|].
  apply (Hcompletes (snd (tick_at 1)) 0%nat eq_refl).
  vm_compute. intuition discriminate.
Defined.

(** ** Scoring *)

(** C1, as the code has it.  In a tick of a running game the score update
    runs before the collision evaluation: the counters after the tick count
    the event flag the tick found, not the event the tick raises.  A food
    event raised in one tick leaves the game running and increases the score
    by exactly 10 and the length by exactly 1 in the next tick, which
    completes as soon as a draw of its frame is off the body; the tick after
    that, when the next tick raised no new event, increases neither
    counter. *)
Theorem score_follows_event (g : GameCore.t) (fuel1 : nat) (f1 : Frame)
    (g1 : GameCore.t) :
  reachable g -> GameCore.gameOver g = false ->
  GameCore.Update fuel1 f1 g = Some g1 ->
  GameCore.scoreBoard g1
  = snd (ScoreHandler.Update (GameCore.collision g) (GameCore.scoreBoard g))
  /\ (CollisionHandler.foodEaten (GameCore.collision g) = false ->
      GameCore.scoreBoard g1 = GameCore.scoreBoard g)
  /\ (CollisionHandler.foodEaten (GameCore.collision g1) = true <->
      Snake.head (GameCore.playerSnake g1) = Food.applePos (GameCore.apple g))
  /\ (CollisionHandler.foodEaten (GameCore.collision g1) = true ->
      GameCore.gameOver g1 = false
      /\ (forall (f2 : Frame) (k : nat),
             ~ In (drawn (rand f2) k)
                  (Snake.snakeBody
                     (Snake.Update f2 (GameCore.playerSnake g1))) ->
             exists g2, forall fuel2, (k < fuel2)%nat ->
                                      GameCore.Update fuel2 f2 g1 = Some g2)
      /\ forall (fuel2 : nat) (f2 : Frame) (g2 : GameCore.t),
          GameCore.Update fuel2 f2 g1 = Some g2 ->
          ScoreHandler.score (GameCore.scoreBoard g2)
          = ScoreHandler.score (GameCore.scoreBoard g1) + 10
          /\ ScoreHandler.length (GameCore.scoreBoard g2)
             = ScoreHandler.length (GameCore.scoreBoard g1) + 1
          /\ (CollisionHandler.foodEaten (GameCore.collision g2) = false ->
              forall (fuel3 : nat) (f3 : Frame) (g3 : GameCore.t),
                GameCore.Update fuel3 f3 g2 = Some g3 ->
                ScoreHandler.score (GameCore.scoreBoard g3)
                = ScoreHandler.score (GameCore.scoreBoard g2)
                /\ ScoreHandler.length (GameCore.scoreBoard g3)
                   = ScoreHandler.length (GameCore.scoreBoard g2))).
Proof.
  intros Hreach Hrun HU1. pose proof (reachable_Inv g Hreach) as HI.
  pose proof (Update_Inv fuel1 f1 g g1 HI HU1) as HI1.
  destruct (Update_running_Inv fuel1 f1 g g1 HI Hrun HU1)
    as [Hsb1 [_ [_ [Hfe1 Hfood1]]]].
  split; [exact Hsb1|]. split; [|split].
  - intros Hno. rewrite Hsb1, scored_eq, Hno. reflexivity.
  - rewrite Hfe1, Vector2Equals_eq.
    assert (Hh : Snake.head (GameCore.playerSnake g1)
                 = Snake.head (Snake.Update f1 (GameCore.playerSnake g))).
    { unfold Snake.head.
      destruct Hfood1 as [[_ [-> _]] | [_ [-> _]]]; reflexivity. }
    rewrite Hh. reflexivity.
  - intros Hev.
    pose proof (event_not_over fuel1 f1 g g1 HI Hrun HU1 Hev) as Hrun1.
    split; [exact Hrun1|].
    split; [intros f2 k Hfree; apply (Update_completes f2 g1 k HI1 Hrun1 Hfree)|].
    intros fuel2 f2 g2 HU2.
    pose proof (Update_Inv fuel2 f2 g1 g2 HI1 HU2) as HI2.
    pose proof (scoreBoard_after fuel2 f2 g1 g2 HI1 HU2) as Hsb2.
    rewrite Hrun1, scored_eq, Hev in Hsb2.
    rewrite Hsb2. cbn [ScoreHandler.score ScoreHandler.length].
    split; [reflexivity|]. split; [reflexivity|].
    intros Hno fuel3 f3 g3 HU3.
    pose proof (scoreBoard_after fuel3 f3 g2 g3 HI2 HU3) as Hsb3.
    rewrite scored_eq, Hno in Hsb3.
    destruct (GameCore.gameOver g2); rewrite Hsb3, Hsb2; split; reflexivity.
Qed.

Lemma score_follows_event_witness :
  reachable opening_state
  /\ GameCore.gameOver opening_state = false
  /\ GameCore.Update 1 (snd (tick_at 1)) opening_state = Some eaten_state
  /\ GameCore.scoreBoard eaten_state = ScoreHandler.mk 0 2
  /\ CollisionHandler.foodEaten (GameCore.collision eaten_state) = true
  /\ ScoreHandler.score (GameCore.scoreBoard grown_state) = 0 + 10
  /\ ScoreHandler.length (GameCore.scoreBoard grown_state) = 2 + 1
  /\ ScoreHandler.score (GameCore.scoreBoard settled_state) = 10
  /\ ScoreHandler.length (GameCore.scoreBoard settled_state) = 3
  /\ (exists g2, forall fuel2, (0 < fuel2)%nat ->
         GameCore.Update fuel2 (snd (tick_at 2)) eaten_state = Some g2).
Proof.
  destruct (score_follows_event opening_state 1 (snd (tick_at 1)) eaten_state
              opening_state_reachable eq_refl eaten_state_Update)
    as [_ [Hsame [_ Hnext]]].
  destruct (Hnext eq_refl) as [_ [Hcompletes Htick2]].
  destruct (Htick2 1%nat (snd (tick_at 2)) grown_state grown_state_Update)
    as [Hscore [Hlength Htick3]].
  destruct (Htick3 eq_refl 1%nat (snd (tick_at 3)) settled_state
              settled_state_Update) as [Hscore3 Hlength3].
  split; [apply opening_state_reachable|]. split; [reflexivity|].
  split; [apply eaten_state_Update|].
  split; [apply (Hsame eq_refl)|]. split; [reflexivity|].
  split; [exact Hscore|]. split; [exact Hlength|].
  split; [exact Hscore3|]. split; [exact Hlength3|].
  apply (Hcompletes (snd (tick_at 2)) 0%nat).
  vm_compute. intuition discriminate.
Defined.

(** C1 as stated fails on the opening of the game of [main]: the tick at 1 s
    moves the head onto the apple and raises the food event, and the score
    and the length after that tick are those before it.  The event flag is
    still set when the tick ends, which a score update following the
    collision evaluation would have cleared. *)
Lemma growth_same_tick_counterexample :
  reachable opening_state
  /\ GameCore.gameOver opening_state = false
  /\ GameCore.Update 1 (snd (tick_at 1)) opening_state = Some eaten_state
  /\ Snake.head (GameCore.playerSnake eaten_state)
     = Food.applePos (GameCore.apple opening_state)
  /\ CollisionHandler.foodEaten (GameCore.collision eaten_state) = true
  /\ ScoreHandler.score (GameCore.scoreBoard opening_state) = 0
  /\ ScoreHandler.score (GameCore.scoreBoard eaten_state) = 0
  /\ ScoreHandler.length (GameCore.scoreBoard opening_state) = 2
  /\ ScoreHandler.length (GameCore.scoreBoard eaten_state) = 2
  /\ ~ (forall (fuel : nat) (f : Frame) (g g' : GameCore.t),
           reachable g -> GameCore.gameOver g = false ->
           GameCore.Update fuel f g = Some g' ->
           Snake.head (GameCore.playerSnake g')
           = Food.applePos (GameCore.apple g) ->
           ScoreHandler.score (GameCore.scoreBoard g')
           = ScoreHandler.score (GameCore.scoreBoard g) + 10
           /\ ScoreHandler.length (GameCore.scoreBoard g')
              = ScoreHandler.length (GameCore.scoreBoard g) + 1).
Proof.
  split; [apply opening_state_reachable|].
  repeat (split; [first [reflexivity | apply eaten_state_Update]|]).
  intros Hclaim.
  destruct (Hclaim 1%nat (snd (tick_at 1)) opening_state eaten_state
              opening_state_reachable eq_refl eaten_state_Update eq_refl)
    as [Hscore _].
  discriminate Hscore.
Qed.

(** ** The apple one cell ahead *)

(** C2, as the code has it.  When the apple is one cell ahead of the head in
    the direction resolved for the frame and the advance is due, the tick
    moves the head onto the apple, raises the food event, sets the growth
    flag and replaces the apple by a cell off the body; the advance of that
    tick treats the tail by the growth flag it found (removed when the flag
    was clear) and the length counter of that tick counts only an earlier
    event.  The game keeps running and the next tick increases the length
    counter by 1.  The ticks that follow before an advance is due, however
    many, complete and keep the body and the growth flag; the next advance
    that is due keeps the tail: it puts the new head in front of the whole
    body, one segment more.  The tick of the event completes when the
    generator covers the board and the moved body leaves a cell free. *)
Theorem apple_ahead (g : GameCore.t) (f : Frame) :
  reachable g -> GameCore.gameOver g = false ->
  Snake.due f (GameCore.playerSnake g) = true ->
  Food.applePos (GameCore.apple g)
  = Vector2Add (Snake.head (GameCore.playerSnake g))
               (Vector2Scale (resolved f (GameCore.playerSnake g)) cellSize) ->
  (forall (fuel : nat) (g1 : GameCore.t),
      GameCore.Update fuel f g = Some g1 ->
      CollisionHandler.foodEaten (GameCore.collision g1) = true
      /\ Snake.addSegment (GameCore.playerSnake g1) = true
      /\ Snake.snakeBody (GameCore.playerSnake g1)
         = Food.applePos (GameCore.apple g)
           :: (if Snake.addSegment (GameCore.playerSnake g)
               then Snake.snakeBody (GameCore.playerSnake g)
               else removelast (Snake.snakeBody (GameCore.playerSnake g)))
      /\ (CollisionHandler.foodEaten (GameCore.collision g) = false ->
          ScoreHandler.length (GameCore.scoreBoard g1)
          = ScoreHandler.length (GameCore.scoreBoard g))
      /\ Food.generateRandomPos fuel (rand f)
           (Snake.snakeBody (GameCore.playerSnake g1))
         = Some (Food.applePos (GameCore.apple g1))
      /\ ~ In (Food.applePos (GameCore.apple g1))
              (Snake.snakeBody (GameCore.playerSnake g1))
      /\ GameCore.gameOver g1 = false
      /\ (forall (fuel2 : nat) (f2 : Frame) (g2 : GameCore.t),
             GameCore.Update fuel2 f2 g1 = Some g2 ->
             ScoreHandler.length (GameCore.scoreBoard g2)
             = ScoreHandler.length (GameCore.scoreBoard g1) + 1
             /\ (Snake.due f2 (GameCore.playerSnake g1) = true ->
                 Snake.snakeBody (GameCore.playerSnake g2)
                 = Vector2Add (Snake.head (GameCore.playerSnake g1))
                     (Vector2Scale (resolved f2 (GameCore.playerSnake g1))
                                   cellSize)
                   :: Snake.snakeBody (GameCore.playerSnake g1)))
      /\ (forall idle : list (nat * Frame),
             Forall (fun tick =>
                       Snake.due (snd tick) (GameCore.playerSnake g1) = false)
                    idle ->
             exists g2 : GameCore.t,
               GameCore.exec idle g1 = Some g2
               /\ GameCore.gameOver g2 = false
               /\ Snake.snakeBody (GameCore.playerSnake g2)
                  = Snake.snakeBody (GameCore.playerSnake g1)
               /\ Snake.addSegment (GameCore.playerSnake g2) = true
               /\ forall (fuel3 : nat) (f3 : Frame) (g3 : GameCore.t),
                   Snake.due f3 (GameCore.playerSnake g2) = true ->
                   GameCore.Update fuel3 f3 g2 = Some g3 ->
                   Snake.snakeBody (GameCore.playerSnake g3)
                   = Vector2Add (Snake.head (GameCore.playerSnake g1))
                       (Vector2Scale (resolved f3 (GameCore.playerSnake g2))
                                     cellSize)
                     :: Snake.snakeBody (GameCore.playerSnake g1)
                   /\ List.length (Snake.snakeBody (GameCore.playerSnake g3))
                      = S (List.length
                             (Snake.snakeBody (GameCore.playerSnake g1)))
                   /\ ScoreHandler.length (GameCore.scoreBoard g3)
                      = ScoreHandler.length (GameCore.scoreBoard g1) + 1))
  /\ (covers_board (rand f) ->
      (exists c, is_cell c
                 /\ ~ In c (Snake.snakeBody
                              (Snake.Update f (GameCore.playerSnake g)))) ->
      exists (g1 : GameCore.t) (enough : nat),
        forall fuel, (enough <= fuel)%nat ->
                     GameCore.Update fuel f g = Some g1).
Proof.
  intros Hreach Hrun Hdue Hahead. pose proof (reachable_Inv g Hreach) as HI.
  set (s := GameCore.playerSnake g) in *.
  assert (Hbody1 : Snake.snakeBody (Snake.Update f s)
                   = Food.applePos (GameCore.apple g)
                     :: (if Snake.addSegment s then Snake.snakeBody s
                         else removelast (Snake.snakeBody s))).
  { destruct (Snake_Update_body f s (Inv_nonempty g HI))
      as [[D _] | [_ [rest [E ->]]]]; [congruence|].
    rewrite E, Hahead. reflexivity. }
  split.
  - intros fuel g1 HU.
    pose proof (Update_Inv fuel f g g1 HI HU) as HI1.
    destruct (Update_running_Inv fuel f g g1 HI Hrun HU)
      as [Hsb1 [_ [_ [Hfe1 Hfood1]]]].
    fold s in Hfe1, Hfood1.
    assert (Hhead : Snake.head (Snake.Update f s)
                    = Food.applePos (GameCore.apple g))
      by (unfold Snake.head; rewrite Hbody1; reflexivity).
    destruct Hfood1 as [[_ [Hs1 G]] | [Hneq _]]; [|contradiction].
    assert (Hev : CollisionHandler.foodEaten (GameCore.collision g1) = true)
      by (rewrite Hfe1; apply Vector2Equals_eq; assumption).
    pose proof (event_not_over fuel f g g1 HI Hrun HU Hev) as Hrun1.
    split; [exact Hev|]. split; [rewrite Hs1; reflexivity|].
    split; [rewrite Hs1; exact Hbody1|].
    split; [intros Hno; rewrite Hsb1, scored_eq, Hno; reflexivity|].
    split; [rewrite Hs1; exact G|].
    split; [apply (Inv_apple_free g1 HI1)|].
    split; [exact Hrun1|].
    assert (Has1 : Snake.addSegment (GameCore.playerSnake g1) = true)
      by (rewrite Hs1; reflexivity).
    split.
    + intros fuel2 f2 g2 HU2.
      destruct (Update_running_Inv fuel2 f2 g1 g2 HI1 Hrun1 HU2)
        as [Hsb2 [_ [_ [_ Hfood2]]]].
      split; [rewrite Hsb2, scored_eq, Hev; reflexivity|].
      intros Hdue2.
      assert (Hb2 : Snake.snakeBody (GameCore.playerSnake g2)
                    = Snake.snakeBody
                        (Snake.Update f2 (GameCore.playerSnake g1))).
      { destruct Hfood2 as [[_ [-> _]] | [_ [-> _]]]; reflexivity. }
      rewrite Hb2, Snake_Update_eq, Hdue2. cbn [Snake.snakeBody].
      rewrite Hs1 at 1. reflexivity.
    + intros idle Hidle.
      destruct (exec_idle idle g1 HI1 Hrun1 Hidle)
        as [g2 [He [HI2 [Hrun2 [Hb2 [Ha2 [_ [_ [_ [Hsb2 Hfe2]]]]]]]]]].
      exists g2. split; [exact He|]. split; [exact Hrun2|].
      split; [exact Hb2|]. split; [rewrite Ha2; exact Has1|].
      intros fuel3 f3 g3 Hdue3 HU3.
      destruct (Update_running_Inv fuel3 f3 g2 g3 HI2 Hrun2 HU3)
        as [Hsb3 [_ [_ [_ Hfood3]]]].
      assert (Hb3 : Snake.snakeBody (GameCore.playerSnake g3)
                    = Vector2Add (Snake.head (GameCore.playerSnake g1))
                        (Vector2Scale (resolved f3 (GameCore.playerSnake g2))
                                      cellSize)
                      :: Snake.snakeBody (GameCore.playerSnake g1)).
      { assert (Hb : Snake.snakeBody (GameCore.playerSnake g3)
                     = Snake.snakeBody
                         (Snake.Update f3 (GameCore.playerSnake g2))).
        { destruct Hfood3 as [[_ [-> _]] | [_ [-> _]]]; reflexivity. }
        rewrite Hb, Snake_Update_eq, Hdue3. cbn [Snake.snakeBody].
        rewrite Ha2, Has1. unfold Snake.head. rewrite Hb2. reflexivity. }
      split; [exact Hb3|]. split; [rewrite Hb3; reflexivity|].
      rewrite Hsb3, scored_eq, Hfe2, Hsb2.
      destruct idle; [rewrite Hev | rewrite scored_eq, Hev]; reflexivity.
  - intros Hcov [c [Hc Hfree]].
    destruct (Hcov c Hc) as [k Hk]. rewrite <- Hk in Hfree.
    destruct (Update_completes f g k HI Hrun Hfree) as [g1 Hg1].
    exists g1, (S k). intros fuel Hfuel. apply Hg1. lia.
Qed.

Lemma apple_ahead_witness :
  reachable opening_state
  /\ GameCore.gameOver opening_state = false
  /\ Snake.due (snd (tick_at 1)) (GameCore.playerSnake opening_state) = true
  /\ Food.applePos (GameCore.apple opening_state)
     = Vector2Add (mkVector2 350 350) (Vector2Scale dirLeft cellSize)
  /\ GameCore.Update 1 (snd (tick_at 1)) opening_state = Some eaten_state
  /\ Snake.snakeBody (GameCore.playerSnake eaten_state)
     = [mkVector2 300 350; mkVector2 350 350]
  /\ ScoreHandler.length (GameCore.scoreBoard eaten_state) = 2
  /\ ScoreHandler.length (GameCore.scoreBoard grown_state) = 2 + 1
  /\ Snake.snakeBody (GameCore.playerSnake grown_state)
     = [mkVector2 250 350; mkVector2 300 350; mkVector2 350 350]
  /\ Forall (fun tick =>
               Snake.due (snd tick) (GameCore.playerSnake eaten_state) = false)
            waiting_frames
  /\ (exists g2 : GameCore.t,
         GameCore.exec waiting_frames eaten_state = Some g2
         /\ Snake.snakeBody (GameCore.playerSnake g2)
            = [mkVector2 300 350; mkVector2 350 350]
         /\ forall g3 : GameCore.t,
             GameCore.Update 1 (snd (tick_at 2)) g2 = Some g3 ->
             Snake.snakeBody (GameCore.playerSnake g3)
             = [mkVector2 250 350; mkVector2 300 350; mkVector2 350 350])
  /\ (exists (g1 : GameCore.t) (enough : nat),
         forall fuel, (enough <= fuel)%nat ->
           GameCore.Update fuel (snd (tick_at 1)) opening_state = Some g1).
Proof.
  destruct (apple_ahead opening_state (snd (tick_at 1))
              opening_state_reachable eq_refl eq_refl eq_refl)
    as [Hdone Hterm].
  destruct (Hdone 1%nat eaten_state eaten_state_Update)
    as [_ [_ [Hbody [Hlen [_ [_ [_ [Hnext Hwait]]]]]]]].
  destruct (Hnext 1%nat (snd (tick_at 2)) grown_state grown_state_Update)
    as [Hlen2 Hbody2].
  assert (Hidle : Forall (fun tick =>
                            Snake.due (snd tick)
                                      (GameCore.playerSnake eaten_state)
                            = false) waiting_frames)
    by (constructor; [reflexivity | constructor; [reflexivity | constructor]]).
  destruct (Hwait waiting_frames Hidle) as [g2 [He [_ [Hb2 [_ Hadvance]]]]].
  split; [apply opening_state_reachable|]. split; [reflexivity|].
  split; [reflexivity|]. split; [reflexivity|].
  split; [apply eaten_state_Update|]. split; [exact Hbody|].
  split; [apply (Hlen eq_refl)|]. split; [exact Hlen2|].
  split; [apply (Hbody2 eq_refl)|].
  split; [exact Hidle|].
  split.
  { exists g2. split; [exact He|]. split; [exact Hb2|].
    intros g3 HU3.
    assert (Hdue3 : Snake.due (snd (tick_at 2)) (GameCore.playerSnake g2)
                    = true).
    { rewrite waiting_state_exec in He. injection He as <-. reflexivity. }
    destruct (Hadvance 1%nat (snd (tick_at 2)) g3 Hdue3 HU3) as [Hb3 _].
    rewrite Hb3.
    rewrite waiting_state_exec in He. injection He as <-. reflexivity. }
  apply Hterm; [apply sweep_covers|].
  exists (mkVector2 50 50). split.
  - apply (cell_is_cell 0 0); unfold cols, rows; cbn; lia.
  - cbn. intuition discriminate.
Defined.

(** C2 as stated fails on the opening of the game of [main]: the apple at
    (300, 350) is one cell to the left of the head at (350, 350) and the
    advance of the tick at 1 s is due; the tick raises the food event, but
    the length counter stays 2 and the tail (400, 350) is removed, the body
    keeping two segments. *)
Lemma apple_ahead_counterexample :
  reachable opening_state
  /\ GameCore.gameOver opening_state = false
  /\ Snake.due (snd (tick_at 1)) (GameCore.playerSnake opening_state) = true
  /\ Food.applePos (GameCore.apple opening_state)
     = Vector2Add (Snake.head (GameCore.playerSnake opening_state))
         (Vector2Scale
            (resolved (snd (tick_at 1)) (GameCore.playerSnake opening_state))
            cellSize)
  /\ GameCore.Update 1 (snd (tick_at 1)) opening_state = Some eaten_state
  /\ CollisionHandler.foodEaten (GameCore.collision eaten_state) = true
  /\ ScoreHandler.length (GameCore.scoreBoard opening_state) = 2
  /\ ScoreHandler.length (GameCore.scoreBoard eaten_state) = 2
  /\ Snake.snakeBody (GameCore.playerSnake opening_state)
     = [mkVector2 350 350; mkVector2 400 350]
  /\ Snake.snakeBody (GameCore.playerSnake eaten_state)
     = [mkVector2 300 350; mkVector2 350 350]
  /\ ~ (forall (fuel : nat) (f : Frame) (g g' : GameCore.t),
           reachable g -> GameCore.gameOver g = false ->
           Snake.due f (GameCore.playerSnake g) = true ->
           Food.applePos (GameCore.apple g)
           = Vector2Add (Snake.head (GameCore.playerSnake g))
               (Vector2Scale (resolved f (GameCore.playerSnake g)) cellSize) ->
           GameCore.Update fuel f g = Some g' ->
           CollisionHandler.foodEaten (GameCore.collision g') = true
           /\ ScoreHandler.length (GameCore.scoreBoard g')
              = ScoreHandler.length (GameCore.scoreBoard g) + 1
           /\ List.length (Snake.snakeBody (GameCore.playerSnake g'))
              = S (List.length (Snake.snakeBody (GameCore.playerSnake g)))
           /\ ~ In (Food.applePos (GameCore.apple g'))
                   (Snake.snakeBody (GameCore.playerSnake g'))).
Proof.
  split; [apply opening_state_reachable|].
  repeat (split; [first [reflexivity | apply eaten_state_Update]|]).
  intros Hclaim.
  destruct (Hclaim 1%nat (snd (tick_at 1)) opening_state eaten_state
              opening_state_reachable eq_refl eq_refl eq_refl
              eaten_state_Update)
    as [_ [Hlength _]].
  discriminate Hlength.
Qed.

(** * Further properties of the code *)

(** ** Direction resolution, frame by frame *)



(** ** Rejection sampling *)

Lemma generateRandomPos_from_inv (rand : nat -> Z) (body : list Vector2) :
  forall (fuel j : nat) (pos : Vector2),
    Food.generateRandomPos_from fuel rand (2 * j) body = Some pos ->
    exists n, (n < fuel)%nat /\ pos = drawn rand (j + n)
              /\ ~ In pos body
              /\ forall i, (j <= i < j + n)%nat -> In (drawn rand i) body.
Proof.
  induction fuel as [|fuel IH]; intros j pos H; [discriminate|].
  rewrite generateRandomPos_from_S in H.
  destruct (Food.shouldGenerateAgain body (drawn rand j)) eqn:E.
  - apply IH in H. destruct H as [n [Hn [-> [Hfree Hbusy]]]].
    exists (S n). split; [lia|].
    replace (j + S n)%nat with (S j + n)%nat by lia.
    split; [reflexivity|]. split; [assumption|].
    intros i Hi. destruct (Nat.eq_dec i j) as [->|Hne].
    + apply shouldGenerateAgain_true. assumption.
    + apply Hbusy. lia.
  - injection H as <-. apply shouldGenerateAgain_false in E.
    exists 0%nat. rewrite Nat.add_0_r.
    split; [lia|]. split; [reflexivity|]. split; [assumption|].
    intros i Hi. lia.
Qed.

Lemma generateRandomPos_None (fuel : nat) (rand : nat -> Z)
    (body : list Vector2) :
  Food.generateRandomPos fuel rand body = None
  <-> forall i, (i < fuel)%nat -> In (drawn rand i) body.
Proof.
  unfold Food.generateRandomPos. change O with (2 * 0)%nat. split.
  - intros HN i Hi.
    apply shouldGenerateAgain_true.
    destruct (Food.shouldGenerateAgain body (drawn rand i)) eqn:E;
      [reflexivity|].
    apply shouldGenerateAgain_false in E.
    destruct (first_free_draw rand body i E) as [n [Hn [Hnf Hnb]]].
    rewrite (generateRandomPos_from_first rand body n 0 fuel) in HN;
      [discriminate | intros k Hk; apply Hnb; lia | assumption | lia].
  - intros Hall.
    destruct (Food.generateRandomPos_from fuel rand (2 * 0) body) as [pos|] eqn:E;
      [|reflexivity].
    apply generateRandomPos_from_inv in E.
    destruct E as [n [Hn [-> [Hfree _]]]].
    exfalso. apply Hfree. apply Hall. lia.
Qed.

(** X2.  [generateRandomPos] returns a position exactly when one of the
    first [fuel] draws is off the body, and then it returns the first such
    draw, every earlier draw having been rejected for lying on the body; it
    runs out of iterations exactly when all of them lie on the body. *)
Theorem sampling_first_free (fuel : nat) (rand : nat -> Z)
    (body : list Vector2) :
  (forall pos : Vector2,
      Food.generateRandomPos fuel rand body = Some pos
      <-> exists n, (n < fuel)%nat /\ pos = drawn rand n
                    /\ ~ In pos body
                    /\ forall i, (i < n)%nat -> In (drawn rand i) body)
  /\ (Food.generateRandomPos fuel rand body = None
      <-> forall i, (i < fuel)%nat -> In (drawn rand i) body).
Proof.
  split; [|apply generateRandomPos_None].
  intros pos. unfold Food.generateRandomPos. change O with (2 * 0)%nat. split.
  - intros H. apply generateRandomPos_from_inv in H.
    destruct H as [n [Hn [Hpos [Hfree Hbusy]]]].
    exists n. repeat split; try assumption.
    intros i Hi. apply Hbusy. lia.
  - intros [n [Hn [-> [Hfree Hbusy]]]].
    apply (generateRandomPos_from_first rand body n 0 fuel);
      [intros i Hi; apply Hbusy; lia | assumption | assumption].
Qed.

Lemma sampling_first_free_witness :
  let body := [mkVector2 50 50; mkVector2 100 50] in
  Food.generateRandomPos 3 (sweep 0) body = Some (mkVector2 150 50)
  /\ Food.generateRandomPos 2 (sweep 0) body = None
  /\ In (drawn (sweep 0) 0) body /\ In (drawn (sweep 0) 1) body.
Proof.
  intros body.
  destruct (sampling_first_free 3 (sweep 0) body) as [Hsome _].
  destruct (sampling_first_free 2 (sweep 0) body) as [_ Hnone].
  assert (Hbusy : forall i, (i < 2)%nat -> In (drawn (sweep 0) i) body).
  { intros i Hi. destruct i as [|[|i]]; [left | right; left | lia];
      reflexivity. }
  split; [|split; [apply (proj2 Hnone); exact Hbusy|]].
  - apply (proj2 (Hsome (mkVector2 150 50))). exists 2%nat.
    split; [lia|]. split; [reflexivity|].
    split; [cbn; intuition discriminate | exact Hbusy].
  - split; [apply Hbusy | apply Hbusy]; lia.
Defined.

(** X3.  When the body covers every cell of the board the sampling loop has
    no position to accept: under every generator and for every number of
    iterations it is still running. *)
Theorem sampling_full_board (fuel : nat) (rand : nat -> Z)
    (body : list Vector2) :
  (forall c, is_cell c -> In c body) ->
  Food.generateRandomPos fuel rand body = None.
Proof.
  intros Hfull. apply generateRandomPos_None.
  intros i _. apply Hfull. apply drawn_is_cell.
Qed.

Lemma sampling_full_board_witness :
  (forall c, is_cell c -> In c board_cells)
  /\ Food.generateRandomPos 1000 (sweep 0) board_cells = None.
Proof.
  split; [exact is_cell_board_cells|].
  apply (sampling_full_board 1000 (sweep 0) board_cells is_cell_board_cells).
Defined.

(** ** The collision handler on arbitrary objects *)

Lemma selfCollisionScan_result (snakeHead : Vector2) (body : list Vector2)
    (c : CollisionHandler.t) :
  forall (n : nat) (i : Z) (c' : CollisionHandler.t),
    CollisionHandler.selfCollisionScan n i snakeHead body c = Some c' ->
    c' = c \/ c' = CollisionHandler.mk (CollisionHandler.foodEaten c) true.
Proof.
  induction n as [|n IH]; intros i c' H; [discriminate|].
  cbn [CollisionHandler.selfCollisionScan] in H.
  destruct (i <? Z.of_nat (List.length body)).
  - destruct (Vector2Equals snakeHead _).
    + injection H as <-. right; reflexivity.
    + apply IH in H. assumption.
  - injection H as <-. left; reflexivity.
Qed.

(** On a body of more than 65535 segments the counter comes back to 0, where
    the head meets itself. *)
Lemma selfCollisionScan_wraps (body : list Vector2) (c : CollisionHandler.t) :
  65535 < Z.of_nat (List.length body) ->
  forall (n : nat) (i : Z),
    0 <= i <= 65535 ->
    (if i =? 0 then 1 else 65537 - i) <= Z.of_nat n ->
    CollisionHandler.selfCollisionScan n i (nth 0 body (mkVector2 0 0)) body c
    = Some (CollisionHandler.mk (CollisionHandler.foodEaten c) true).
Proof.
  intros Hlong. induction n as [|n IH]; intros i Hi Hn.
  - destruct (i =? 0); lia.
  - cbn [CollisionHandler.selfCollisionScan].
    replace (i <? Z.of_nat (List.length body)) with true
      by (symmetry; apply Z.ltb_lt; lia).
    destruct (i =? 0) eqn:E0.
    + apply Z.eqb_eq in E0. subst i. cbn [Z.to_nat].
      rewrite Vector2Equals_refl. reflexivity.
    + apply Z.eqb_neq in E0.
      destruct (Vector2Equals _ _); [reflexivity|].
      apply IH; unfold CollisionHandler.ushort_next.
      * pose proof (Z.mod_pos_bound (i + 1) 65536 ltac:(lia)). lia.
      * destruct (Z.eq_dec i 65535) as [->|Hne].
        -- cbn. lia.
        -- rewrite Z.mod_small by lia.
           replace (i + 1 =? 0) with false by (symmetry; apply Z.eqb_neq; lia).
           lia.
Qed.

(** The scan as [handle] calls it, with the head of the scanned body. *)
Lemma selfCollisionHandle_head (s : Snake.t) (c : CollisionHandler.t) :
  Snake.snakeBody s <> [] ->
  CollisionHandler.selfCollisionHandle (Snake.head s) s c
  = Some (CollisionHandler.mk (CollisionHandler.foodEaten c)
            (CollisionHandler.gameOver c
             || existsb (Vector2Equals (Snake.head s)) (tl (Snake.snakeBody s))
             || (65535 <? Z.of_nat (List.length (Snake.snakeBody s))))).
Proof.
  intros Hne.
  destruct (65535 <? Z.of_nat (List.length (Snake.snakeBody s))) eqn:E.
  - apply Z.ltb_lt in E. rewrite orb_true_r.
    unfold CollisionHandler.selfCollisionHandle, Snake.head.
    replace (hd (mkVector2 0 0) (Snake.snakeBody s))
      with (nth 0 (Snake.snakeBody s) (mkVector2 0 0))
      by (destruct (Snake.snakeBody s); reflexivity).
    apply selfCollisionScan_wraps; [assumption | lia |].
    unfold CollisionHandler.ushort_states. rewrite Z2Nat.id by lia.
    cbn. lia.
  - apply Z.ltb_ge in E. rewrite orb_false_r.
    rewrite (selfCollisionHandle_short _ (Snake.snakeBody s))
      by (assumption || reflexivity).
    destruct c as [fe go]. cbn [CollisionHandler.foodEaten CollisionHandler.gameOver].
    destruct (existsb _ _); [rewrite orb_true_r | rewrite orb_false_r];
      reflexivity.
Qed.

(** On coordinates a float holds exactly the comparison with tolerance is
    the comparison of the components. *)
Lemma Vector2Equals_exact (p q : Vector2) :
  float_exact p -> float_exact q ->
  Vector2Equals_tolerant p q = Vector2Equals p q.
Proof.
  unfold float_exact, Vector2Equals_tolerant, Vector2Equals, within_tolerance.
  intros [Hpx Hpy] [Hqx Hqy].
  assert (H : forall a b : Z,
             Z.abs a <= 100000 -> Z.abs b <= 100000 ->
             (Z.abs (a - b) * 1000000
              <=? Z.max 1 (Z.max (Z.abs a) (Z.abs b))) = (a =? b)).
  { intros a b Ha Hb. destruct (a =? b) eqn:E.
    - apply Z.eqb_eq in E. apply Z.leb_le. lia.
    - apply Z.eqb_neq in E. apply Z.leb_gt. lia. }
  rewrite !H by assumption. reflexivity.
Qed.

(** X4.  On a non-empty body whose coordinates a float holds exactly, the
    self-collision scan called with the head of the body always leaves its
    loop.  It keeps the food flag, and sets game-over when the head equals a
    later segment; a flag already set stays set.  On a body of more than
    65535 segments the [unsigned short] counter wraps to 0 and the head is
    compared with itself, so the scan reports a collision whatever the
    body. *)
Theorem self_scan_verdict (s : Snake.t) (c : CollisionHandler.t) :
  Forall float_exact (Snake.snakeBody s) ->
  Snake.snakeBody s <> [] ->
  exists c' : CollisionHandler.t,
    CollisionHandler.selfCollisionHandle (Snake.head s) s c = Some c'
    /\ CollisionHandler.foodEaten c' = CollisionHandler.foodEaten c
    /\ (Z.of_nat (List.length (Snake.snakeBody s)) <= 65535 ->
        (CollisionHandler.gameOver c' = true <->
         CollisionHandler.gameOver c = true
         \/ In (Snake.head s) (tl (Snake.snakeBody s))))
    /\ (65535 < Z.of_nat (List.length (Snake.snakeBody s)) ->
        CollisionHandler.gameOver c' = true)
    /\ (forall segment : Vector2,
           In segment (Snake.snakeBody s) ->
           Vector2Equals_tolerant (Snake.head s) segment
           = Vector2Equals (Snake.head s) segment).
Proof.
  intros Hexact Hne. eexists.
  split; [apply selfCollisionHandle_head; assumption|].
  cbn [CollisionHandler.foodEaten CollisionHandler.gameOver].
  split; [reflexivity|]. split; [|split].
  3:{ intros segment Hin. rewrite Forall_forall in Hexact.
      apply Vector2Equals_exact; apply Hexact;
        [apply head_In; assumption | assumption]. }
  - intros Hshort.
    replace (65535 <? Z.of_nat (List.length (Snake.snakeBody s))) with false
      by (symmetry; apply Z.ltb_ge; assumption).
    rewrite orb_false_r, orb_true_iff, existsb_Vector2Equals. reflexivity.
  - intros Hlong. apply Z.ltb_lt in Hlong. rewrite Hlong.
    apply orb_true_r.
Qed.

Lemma self_scan_verdict_witness :
  Forall float_exact (Snake.snakeBody long_snake)
  /\ Snake.snakeBody long_snake <> []
  /\ 65535 < Z.of_nat (List.length (Snake.snakeBody long_snake))
  /\ ~ In (Snake.head long_snake) (tl (Snake.snakeBody long_snake))
  /\ exists c', CollisionHandler.selfCollisionHandle
                  (Snake.head long_snake) long_snake
                  (CollisionHandler.mk false false) = Some c'
                /\ CollisionHandler.gameOver c' = true.
Proof.
  assert (Hne : Snake.snakeBody long_snake <> []) by discriminate.
  assert (Hlong : 65535 < Z.of_nat (List.length (Snake.snakeBody long_snake))).
  { unfold long_snake. cbn [Snake.set_snakeBody Snake.snakeBody List.length].
    rewrite repeat_length. lia. }
  assert (Hexact : Forall float_exact (Snake.snakeBody long_snake)).
  { unfold long_snake. cbn [Snake.set_snakeBody Snake.snakeBody].
    constructor; [split; cbn; lia|].
    apply Forall_forall. intros v Hv. apply repeat_spec in Hv. subst v.
    split; cbn; lia. }
  destruct (self_scan_verdict long_snake (CollisionHandler.mk false false)
              Hexact Hne)
    as [c' [Hscan [_ [_ [Hwrap _]]]]].
  split; [exact Hexact|].
  split; [exact Hne|]. split; [exact Hlong|]. split.
  - unfold long_snake, Snake.head.
    cbn [Snake.set_snakeBody Snake.snakeBody hd tl].
    intros Hin. apply repeat_spec in Hin. discriminate Hin.
  - exists c'. split; [exact Hscan | exact (Hwrap Hlong)].
Defined.

Lemma selfCollisionHandle_set_addSegment (snakeHead : Vector2) (b : bool)
    (s : Snake.t) (c : CollisionHandler.t) :
  CollisionHandler.selfCollisionHandle snakeHead (Snake.set_addSegment b s) c
  = CollisionHandler.selfCollisionHandle snakeHead s c.
Proof.
  unfold CollisionHandler.selfCollisionHandle.
  cbn [Snake.set_addSegment Snake.snakeBody]. reflexivity.
Qed.

(** [handle] on any food, snake and handler: every outcome. *)
Lemma handle_cases (fuel : nat) (rand : nat -> Z) (apple : Food.t)
    (s : Snake.t) (c : CollisionHandler.t) :
  Snake.snakeBody s <> [] ->
  let over := CollisionHandler.gameOver c
              || outside (Snake.head s)
              || existsb (Vector2Equals (Snake.head s)) (tl (Snake.snakeBody s))
              || (65535 <? Z.of_nat (List.length (Snake.snakeBody s))) in
  CollisionHandler.handle fuel rand apple s c
  = if Vector2Equals (Snake.head s) (Food.applePos apple)
    then match Food.generateRandomPos fuel rand (Snake.snakeBody s) with
         | None => None
         | Some pos =>
             Some (over, (Food.mk pos, Snake.set_addSegment true s,
                          CollisionHandler.mk true over))
         end
    else Some (over, (apple, s,
                      CollisionHandler.mk (CollisionHandler.foodEaten c) over)).
Proof.
  intros Hne over.
  unfold CollisionHandler.handle, CollisionHandler.foodCollisionHandle.
  destruct (Vector2Equals (Snake.head s) (Food.applePos apple)).
  - destruct (Food.generateRandomPos fuel rand (Snake.snakeBody s));
      [|reflexivity].
    rewrite borderCollisionHandle_eq.
    rewrite selfCollisionHandle_set_addSegment.
    rewrite selfCollisionHandle_head by exact Hne.
    reflexivity.
  - rewrite borderCollisionHandle_eq.
    rewrite selfCollisionHandle_head by exact Hne.
    reflexivity.
Qed.

(** X5.  One collision evaluation, on any food, snake and handler state with
    a non-empty body and coordinates a float holds exactly: it fails to
    return only when the head is on the apple
    and the sampling loop does not finish; the value it returns is the
    handler's game-over flag; a flag that was set is never cleared; the body,
    the direction, the interval and the time of the last advance are left
    alone; the apple moves and the growth and food flags are set exactly when
    the head is on the apple, and the new apple is off the body. *)
Theorem handle_effects (fuel : nat) (rand : nat -> Z) (apple : Food.t)
    (s : Snake.t) (c : CollisionHandler.t) :
  float_exact (Food.applePos apple) ->
  Forall float_exact (Snake.snakeBody s) ->
  Snake.snakeBody s <> [] ->
  (CollisionHandler.handle fuel rand apple s c = None <->
   Snake.head s = Food.applePos apple
   /\ Food.generateRandomPos fuel rand (Snake.snakeBody s) = None)
  /\ (forall (over : bool) (apple' : Food.t) (s' : Snake.t)
             (c' : CollisionHandler.t),
         CollisionHandler.handle fuel rand apple s c
         = Some (over, (apple', s', c')) ->
         over = CollisionHandler.gameOver c'
         /\ (CollisionHandler.gameOver c = true -> over = true)
         /\ Snake.snakeBody s' = Snake.snakeBody s
         /\ Snake.lastDirection s' = Snake.lastDirection s
         /\ Snake.interval s' = Snake.interval s
         /\ Snake.lastUpdateTime s' = Snake.lastUpdateTime s
         /\ (Snake.head s = Food.applePos apple ->
             CollisionHandler.foodEaten c' = true
             /\ Snake.addSegment s' = true
             /\ ~ In (Food.applePos apple') (Snake.snakeBody s'))
         /\ (Snake.head s <> Food.applePos apple ->
             apple' = apple /\ s' = s
             /\ CollisionHandler.foodEaten c'
                = CollisionHandler.foodEaten c))
  /\ (Vector2Equals_tolerant (Snake.head s) (Food.applePos apple)
      = Vector2Equals (Snake.head s) (Food.applePos apple)
      /\ forall segment : Vector2,
          In segment (Snake.snakeBody s) ->
          Vector2Equals_tolerant (Snake.head s) segment
          = Vector2Equals (Snake.head s) segment).
Proof.
  intros Hxa Hxs Hne.
  assert (Hxh : float_exact (Snake.head s)).
  { rewrite Forall_forall in Hxs. apply Hxs, head_In, Hne. }
  assert (Htolerant :
            Vector2Equals_tolerant (Snake.head s) (Food.applePos apple)
            = Vector2Equals (Snake.head s) (Food.applePos apple)
            /\ forall segment : Vector2,
                In segment (Snake.snakeBody s) ->
                Vector2Equals_tolerant (Snake.head s) segment
                = Vector2Equals (Snake.head s) segment).
  { split; [apply Vector2Equals_exact; assumption|].
    intros segment Hin. rewrite Forall_forall in Hxs.
    apply Vector2Equals_exact; [assumption | apply Hxs; assumption]. }
  refine ((fun H => conj (proj1 H) (conj (proj2 H) Htolerant)) _).
  clear Htolerant.
  rewrite (handle_cases fuel rand apple s c Hne). cbv zeta.
  destruct (Vector2Equals (Snake.head s) (Food.applePos apple)) eqn:E.
  - apply Vector2Equals_eq in E.
    destruct (Food.generateRandomPos fuel rand (Snake.snakeBody s))
      as [pos|] eqn:G.
    + split; [split; [discriminate | intros [_ H]; discriminate]|].
      intros over apple' s' c' H. injection H as <- <- <- <-.
      apply generateRandomPos_sound in G. destruct G as [Hfree _].
      cbn. repeat split; auto; try contradiction.
      intros Hc. rewrite Hc. reflexivity.
    + split; [split; auto|]. intros over apple' s' c' H. discriminate.
  - apply Vector2Equals_neq in E.
    split; [split; [discriminate | intros [H _]; contradiction]|].
    intros over apple' s' c' H. injection H as <- <- <- <-.
    cbn. repeat split; auto; try contradiction.
    intros Hc. rewrite Hc. reflexivity.
Qed.

Lemma handle_effects_witness :
  let s := GameCore.playerSnake eaten_state in
  let apple := GameCore.apple opening_state in
  let c := CollisionHandler.mk false false in
  float_exact (Food.applePos apple)
  /\ Forall float_exact (Snake.snakeBody s)
  /\ Snake.snakeBody s <> []
  /\ Snake.head s = Food.applePos apple
  /\ CollisionHandler.handle 1 (sweep 0) apple s c
     = Some (false, (Food.mk (mkVector2 50 50), s,
                     CollisionHandler.mk true false))
  /\ ~ In (mkVector2 50 50) (Snake.snakeBody s)
  /\ (CollisionHandler.handle 0 (sweep 0) apple s c = None).
Proof.
  intros s apple c.
  assert (Hne : Snake.snakeBody s <> []) by (subst s; discriminate).
  assert (Hrun : CollisionHandler.handle 1 (sweep 0) apple s c
                 = Some (false, (Food.mk (mkVector2 50 50), s,
                                 CollisionHandler.mk true false)))
    by (vm_compute; reflexivity).
  assert (Hxa : float_exact (Food.applePos apple))
    by (subst apple; split; cbn; lia).
  assert (Hxs : Forall float_exact (Snake.snakeBody s))
    by (subst s; constructor; [split; cbn; lia|];
        constructor; [split; cbn; lia | constructor]).
  destruct (handle_effects 0 (sweep 0) apple s c Hxa Hxs Hne) as [Hnone _].
  destruct (handle_effects 1 (sweep 0) apple s c Hxa Hxs Hne)
    as [_ [Hsome _]].
  destruct (Hsome _ _ _ _ Hrun) as [_ [_ [_ [_ [_ [_ [Hevent _]]]]]]].
  destruct (Hevent eq_refl) as [_ [_ Hfree]].
  split; [exact Hxa|]. split; [exact Hxs|].
  split; [exact Hne|]. split; [reflexivity|]. split; [exact Hrun|].
  split; [exact Hfree|].
  apply (proj2 Hnone). split; reflexivity.
Defined.

(** ** Invariants of the reachable games *)

(** A completed tick of a running game, member by member. *)
Lemma Update_tick (fuel : nat) (f : Frame) (g g' : GameCore.t) :
  Inv g -> GameCore.gameOver g = false ->
  GameCore.Update fuel f g = Some g' ->
  let s1 := Snake.Update f (GameCore.playerSnake g) in
  let event := Vector2Equals (Snake.head s1)
                             (Food.applePos (GameCore.apple g)) in
  Snake.snakeBody (GameCore.playerSnake g') = Snake.snakeBody s1
  /\ Snake.lastDirection (GameCore.playerSnake g') = Snake.lastDirection s1
  /\ Snake.interval (GameCore.playerSnake g') = Snake.interval s1
  /\ Snake.difficulty (GameCore.playerSnake g') = Snake.difficulty s1
  /\ Snake.lastUpdateTime (GameCore.playerSnake g') = Snake.lastUpdateTime s1
  /\ Snake.addSegment (GameCore.playerSnake g')
     = Snake.addSegment s1 || event
  /\ CollisionHandler.foodEaten (GameCore.collision g') = event
  /\ (event = false -> GameCore.apple g' = GameCore.apple g).
Proof.
  intros HI Hrun HU s1 event.
  destruct (Update_running_Inv fuel f g g' HI Hrun HU)
    as [_ [_ [_ [Hfe Hfood]]]].
  fold s1 in Hfe, Hfood. subst event. rewrite Hfe.
  destruct Hfood as [[Hev [-> _]] | [Hev [-> Happle]]].
  - apply Vector2Equals_eq in Hev. rewrite Hev.
    cbn. rewrite orb_true_r. repeat split. discriminate.
  - apply Vector2Equals_neq in Hev. rewrite Hev.
    rewrite orb_false_r. repeat split. auto.
Qed.

Lemma chain_removelast (l : list Vector2) : chain l -> chain (removelast l).
Proof.
  induction l as [|a l IH]; [auto|].
  destruct l as [|b l]; [auto|].
  intros [Hab Hc].
  change (removelast (a :: b :: l)) with (a :: removelast (b :: l)).
  destruct l as [|c l]; [exact I|].
  change (removelast (b :: c :: l)) with (b :: removelast (c :: l)) in *.
  split; [assumption | apply IH; assumption].
Qed.

Lemma Snake_Update_chain (f : Frame) (s : Snake.t) :
  is_direction (Snake.lastDirection s) ->
  chain (Snake.snakeBody s) ->
  (2 <= List.length (Snake.snakeBody s))%nat ->
  chain (Snake.snakeBody (Snake.Update f s))
  /\ (2 <= List.length (Snake.snakeBody (Snake.Update f s)))%nat.
Proof.
  intros Hdir Hchain Hlen.
  assert (Hne : Snake.snakeBody s <> [])
    by (destruct (Snake.snakeBody s); [cbn in Hlen; lia | discriminate]).
  pose proof (Snake_Update_body f s Hne) as HB.
  unfold Snake.head in HB.
  destruct (Snake.snakeBody s) as [|h [|n l]] eqn:Eb;
    [cbn in Hlen; lia | cbn in Hlen; lia |].
  cbn [hd] in HB.
  destruct HB as [[_ E] | [_ [rest [E Hrest]]]]; rewrite E; [auto|].
  assert (Hadj : adjacent (Vector2Add h (Vector2Scale (resolved f s) cellSize))
                          h).
  { exists (resolved f s). split; [apply resolved_direction; assumption|].
    reflexivity. }
  destruct (Snake.addSegment s); subst rest.
  - split; [split; assumption | cbn [List.length]; lia].
  - change (removelast (h :: n :: l)) with (h :: removelast (n :: l)).
    split.
    + split; [assumption|].
      change (h :: removelast (n :: l)) with (removelast (h :: n :: l)).
      apply chain_removelast. assumption.
    + cbn [List.length]. rewrite removelast_length. cbn [List.length]. lia.
Qed.

(** X6.  In every state the program reaches the stored direction is one of
    the four unit directions, the body has at least two segments, every
    segment lies on the grid, and each segment is exactly one cell away from
    the next along one axis. *)
Theorem reachable_body_chain (g : GameCore.t) :
  reachable g ->
  is_direction (Snake.lastDirection (GameCore.playerSnake g))
  /\ (2 <= List.length (Snake.snakeBody (GameCore.playerSnake g)))%nat
  /\ Forall aligned (Snake.snakeBody (GameCore.playerSnake g))
  /\ chain (Snake.snakeBody (GameCore.playerSnake g)).
Proof.
  intros Hreach. pose proof (reachable_Inv g Hreach) as HI.
  split; [apply (Inv_direction g HI)|].
  assert (H : chain (Snake.snakeBody (GameCore.playerSnake g))
              /\ (2 <= List.length (Snake.snakeBody (GameCore.playerSnake g)))%nat).
  { clear HI. induction Hreach as [fuel rand0 sD g H | fuel f g g' Hr IH H].
    - unfold GameCore.ctor in H.
      destruct (Food.ctor fuel rand0 _); [|discriminate].
      injection H as <-. cbn. split; [|lia].
      split; [|exact I]. exists dirLeft. split; [|reflexivity].
      right; right; left; reflexivity.
    - pose proof (reachable_Inv g Hr) as HI. destruct IH as [Hc Hl].
      destruct (GameCore.gameOver g) eqn:Hrun.
      + rewrite Update_over in H by assumption. injection H as <-. auto.
      + destruct (Update_tick fuel f g g' HI Hrun H) as [-> _].
        apply Snake_Update_chain; [apply (Inv_direction g HI) | |]; assumption. }
  destruct H as [Hc Hl].
  split; [exact Hl|]. split; [apply (Inv_aligned g HI) | exact Hc].
Qed.

Lemma reachable_body_chain_witness :
  reachable grown_state
  /\ chain [mkVector2 250 350; mkVector2 300 350; mkVector2 350 350]
  /\ (2 <= 3)%nat.
Proof.
  destruct (reachable_body_chain grown_state grown_state_reachable)
    as [_ [Hlen [_ Hchain]]].
  split; [exact grown_state_reachable|]. split; [exact Hchain | exact Hlen].
Defined.

(** X7.  In every reachable state the game-over flag of the handler equals
    the one of [GameCore] and the apple is a cell of the board; while the
    game runs the segments are pairwise distinct cells of the board, none of
    them the cell of the apple, so the body has at most 255 segments. *)
Theorem running_body_distinct (g : GameCore.t) :
  reachable g ->
  CollisionHandler.gameOver (GameCore.collision g) = GameCore.gameOver g
  /\ is_cell (Food.applePos (GameCore.apple g))
  /\ (GameCore.gameOver g = false ->
      NoDup (Snake.snakeBody (GameCore.playerSnake g))
      /\ Forall is_cell (Snake.snakeBody (GameCore.playerSnake g))
      /\ (List.length (Snake.snakeBody (GameCore.playerSnake g)) <= 255)%nat
      /\ ~ In (Food.applePos (GameCore.apple g))
              (Snake.snakeBody (GameCore.playerSnake g))
      /\ NoDup (Food.applePos (GameCore.apple g)
                :: Snake.snakeBody (GameCore.playerSnake g))).
Proof.
  intros Hreach. pose proof (reachable_Inv g Hreach) as HI.
  split; [apply (Inv_flags g HI)|]. split; [apply (Inv_apple_cell g HI)|].
  intros Hrun. destruct (Inv_running g HI Hrun) as [Hnd Hon].
  refine ((fun H => conj (proj1 H)
                      (conj (proj1 (proj2 H))
                         (conj (proj2 (proj2 H))
                            (conj (Inv_apple_free g HI)
                               (NoDup_cons _ (Inv_apple_free g HI) Hnd)))))
            _).
  assert (Hcells : Forall is_cell (Snake.snakeBody (GameCore.playerSnake g))).
  { pose proof (Inv_aligned g HI) as Hal.
    rewrite Forall_forall in *. intros v Hv. split; auto. }
  split; [exact Hnd|]. split; [exact Hcells|].
  assert (H : (List.length (Food.applePos (GameCore.apple g)
                            :: Snake.snakeBody (GameCore.playerSnake g))
               <= 256)%nat).
  { apply body_fits.
    - constructor; [apply (Inv_apple_free g HI) | exact Hnd].
    - constructor; [apply (Inv_apple_cell g HI) | exact Hcells]. }
  cbn [List.length] in H. lia.
Qed.

Lemma running_body_distinct_witness :
  reachable grown_state
  /\ GameCore.gameOver grown_state = false
  /\ NoDup [mkVector2 250 350; mkVector2 300 350; mkVector2 350 350]
  /\ (3 <= 255)%nat
  /\ ~ In (mkVector2 50 50)
          [mkVector2 250 350; mkVector2 300 350; mkVector2 350 350].
Proof.
  destruct (running_body_distinct grown_state grown_state_reachable)
    as [_ [_ Hrunning]].
  destruct (Hrunning eq_refl) as [Hnd [_ [Hlen [Hoff _]]]].
  split; [exact grown_state_reachable|]. split; [reflexivity|].
  split; [exact Hnd|]. split; [exact Hlen | exact Hoff].
Defined.

(** X8.  In every reachable state the game-over flag tells where the head
    is: it is set exactly when the head is off the board or on a later
    segment of the body. *)
Theorem game_over_reflects_head (g : GameCore.t) :
  reachable g ->
  (GameCore.gameOver g = true <->
   ~ on_board (Snake.head (GameCore.playerSnake g))
   \/ In (Snake.head (GameCore.playerSnake g))
         (tl (Snake.snakeBody (GameCore.playerSnake g)))).
Proof.
  intros Hreach. split.
  - induction Hreach as [fuel rand0 sD g H | fuel f g g' Hr IH H].
    + unfold GameCore.ctor in H.
      destruct (Food.ctor fuel rand0 _); [|discriminate].
      injection H as <-. discriminate.
    + pose proof (reachable_Inv g Hr) as HI.
      destruct (GameCore.gameOver g) eqn:Hrun.
      * rewrite Update_over in H by assumption. injection H as <-.
        rewrite Hrun. exact IH.
      * destruct (Update_running_Inv fuel f g g' HI Hrun H)
          as [_ [Hover _]].
        destruct (Update_tick fuel f g g' HI Hrun H) as [Hb _].
        unfold Snake.head at 1 2. rewrite Hb.
        fold (Snake.head (Snake.Update f (GameCore.playerSnake g))).
        rewrite Hover, orb_true_iff, outside_true, existsb_Vector2Equals.
        auto.
  - intros Hgeo. pose proof (reachable_Inv g Hreach) as HI.
    destruct (GameCore.gameOver g) eqn:Hrun; [reflexivity|].
    exfalso. destruct (Inv_running g HI Hrun) as [Hnd Hon].
    pose proof (Inv_nonempty g HI) as Hne.
    unfold Snake.head in Hgeo.
    destruct (Snake.snakeBody (GameCore.playerSnake g)) as [|h l];
      [congruence|].
    cbn [hd tl] in Hgeo. destruct Hgeo as [Hoff | Hin].
    + apply Hoff. inversion Hon; assumption.
    + inversion Hnd; contradiction.
Qed.

Lemma game_over_reflects_head_witness :
  reachable crashed_state
  /\ GameCore.gameOver crashed_state = true
  /\ (~ on_board (mkVector2 0 350)
      \/ In (mkVector2 0 350) [mkVector2 50 350; mkVector2 100 350]).
Proof.
  pose proof (game_over_reflects_head crashed_state crashed_state_reachable)
    as Hiff.
  split; [exact crashed_state_reachable|]. split; [reflexivity|].
  apply (proj1 Hiff). reflexivity.
Defined.

(** ** The counters *)

Lemma Update_scoreBoard (fuel : nat) (f : Frame) (g g' : GameCore.t) :
  GameCore.Update fuel f g = Some g' ->
  GameCore.scoreBoard g'
  = if GameCore.gameOver g then GameCore.scoreBoard g
    else scored (GameCore.collision g) (GameCore.scoreBoard g).
Proof.
  unfold GameCore.Update, scored. intros H.
  destruct (GameCore.gameOver g); cbn [negb] in H.
  - injection H as <-. reflexivity.
  - destruct (ScoreHandler.Update (GameCore.collision g)
                                  (GameCore.scoreBoard g)) as [c1 sb1].
    destruct (CollisionHandler.handle fuel (rand f) (GameCore.apple g) _ c1)
      as [[over [[a2 s2] c2]]|]; [|discriminate].
    injection H as <-. reflexivity.
Qed.

(** The length counter against the number of segments, what is pending
    counted on both sides. *)
Lemma reachable_length_relation (g : GameCore.t) :
  reachable g ->
  ScoreHandler.length (GameCore.scoreBoard g)
  + pending (CollisionHandler.foodEaten (GameCore.collision g))
  = Z.of_nat (List.length (Snake.snakeBody (GameCore.playerSnake g)))
    + pending (Snake.addSegment (GameCore.playerSnake g)).
Proof.
  induction 1 as [fuel rand0 sD g H | fuel f g g' Hr IH H].
  - unfold GameCore.ctor in H.
    destruct (Food.ctor fuel rand0 _); [|discriminate].
    injection H as <-. reflexivity.
  - pose proof (reachable_Inv g Hr) as HI.
    destruct (GameCore.gameOver g) eqn:Hrun.
    + rewrite Update_over in H by assumption. injection H as <-. exact IH.
    + pose proof (Update_scoreBoard fuel f g g' H) as Hsb.
      rewrite Hrun, scored_eq in Hsb.
      destruct (Update_tick fuel f g g' HI Hrun H)
        as [Hb [_ [_ [_ [_ [Has [Hfe _]]]]]]].
      rewrite Hb, Has, Hfe, Hsb.
      pose proof (Inv_nonempty g HI) as Hne.
      destruct (Snake.due f (GameCore.playerSnake g)) eqn:Hdue.
      * rewrite Snake_Update_eq, Hdue.
        cbn [Snake.snakeBody Snake.addSegment Snake.head orb].
        set (e := Vector2Equals _ _).
        destruct (Snake.addSegment (GameCore.playerSnake g)),
          (CollisionHandler.foodEaten (GameCore.collision g));
          cbn [ScoreHandler.length List.length] in *;
          rewrite ?removelast_cons by assumption;
          cbn [List.length]; rewrite ?removelast_length;
          unfold pending in *;
          destruct (Snake.snakeBody (GameCore.playerSnake g));
          try congruence; cbn [List.length Nat.pred] in *; lia.
      * destruct (idle_no_event f g HI Hdue) as [Hs1 He].
        rewrite He, Hs1, orb_false_r.
        cbn [Snake.set_lastDirection Snake.snakeBody Snake.addSegment].
        unfold pending in *.
        destruct (CollisionHandler.foodEaten (GameCore.collision g));
          cbn [ScoreHandler.length]; lia.
Qed.

Lemma reachable_body_bound (g : GameCore.t) :
  reachable g ->
  Z.of_nat (List.length (Snake.snakeBody (GameCore.playerSnake g))) <= 257.
Proof.
  induction 1 as [fuel rand0 sD g H | fuel f g g' Hr IH H].
  - unfold GameCore.ctor in H.
    destruct (Food.ctor fuel rand0 _); [|discriminate].
    injection H as <-. cbn. lia.
  - pose proof (reachable_Inv g Hr) as HI.
    destruct (GameCore.gameOver g) eqn:Hrun.
    + rewrite Update_over in H by assumption. injection H as <-. exact IH.
    + destruct (Update_tick fuel f g g' HI Hrun H) as [-> _].
      apply Inv_body_short; assumption.
Qed.

(** X9.  A tick from a reachable state leaves the counters alone or adds
    exactly 10 to the score and 1 to the length, and it adds only in a
    running game whose food flag was set; so the counters never decrease.
    In every reachable state the length counter lies between 2 and 258, the
    score is ten times the length counter minus the two initial segments,
    at most 2560, and both additions of a tick stay within the range of
    [int]. *)
Theorem score_counters :
  (forall (fuel : nat) (f : Frame) (g g' : GameCore.t),
      reachable g ->
      GameCore.Update fuel f g = Some g' ->
      GameCore.scoreBoard g' = GameCore.scoreBoard g
      \/ (GameCore.gameOver g = false
          /\ CollisionHandler.foodEaten (GameCore.collision g) = true
          /\ ScoreHandler.score (GameCore.scoreBoard g')
             = ScoreHandler.score (GameCore.scoreBoard g) + 10
          /\ ScoreHandler.length (GameCore.scoreBoard g')
             = ScoreHandler.length (GameCore.scoreBoard g) + 1))
  /\ (forall g : GameCore.t,
         reachable g ->
         2 <= ScoreHandler.length (GameCore.scoreBoard g) <= 258
         /\ ScoreHandler.score (GameCore.scoreBoard g)
            = 10 * (ScoreHandler.length (GameCore.scoreBoard g) - 2)
         /\ 0 <= ScoreHandler.score (GameCore.scoreBoard g) <= 2560
         /\ ScoreHandler.score (GameCore.scoreBoard g)
            + ScoreHandler.scoreMultiplier <= INT_MAX
         /\ ScoreHandler.length (GameCore.scoreBoard g) + 1 <= INT_MAX).
Proof.
  assert (Hstep : forall (fuel : nat) (f : Frame) (g g' : GameCore.t),
             GameCore.Update fuel f g = Some g' ->
             GameCore.scoreBoard g' = GameCore.scoreBoard g
             \/ (GameCore.gameOver g = false
                 /\ CollisionHandler.foodEaten (GameCore.collision g) = true
                 /\ ScoreHandler.score (GameCore.scoreBoard g')
                    = ScoreHandler.score (GameCore.scoreBoard g) + 10
                 /\ ScoreHandler.length (GameCore.scoreBoard g')
                    = ScoreHandler.length (GameCore.scoreBoard g) + 1)).
  { intros fuel f g g' H. apply Update_scoreBoard in H. rewrite H.
    destruct (GameCore.gameOver g); [left; reflexivity|].
    rewrite scored_eq.
    destruct (CollisionHandler.foodEaten (GameCore.collision g));
      [right; repeat split | left; reflexivity]. }
  split; [intros fuel f g g' _; apply Hstep|].
  intros g Hreach.
  assert (Hscore : 2 <= ScoreHandler.length (GameCore.scoreBoard g)
                   /\ ScoreHandler.score (GameCore.scoreBoard g)
                      = 10 * (ScoreHandler.length (GameCore.scoreBoard g) - 2)).
  { induction Hreach as [fuel rand0 sD g H | fuel f g g' Hr IH H].
    - unfold GameCore.ctor in H.
      destruct (Food.ctor fuel rand0 _); [|discriminate].
      injection H as <-. cbn. lia.
    - destruct (Hstep fuel f g g' H) as [-> | [_ [_ [Hs Hl]]]]; [exact IH|].
      rewrite Hs, Hl. lia. }
  pose proof (reachable_length_relation g Hreach) as Hrel.
  pose proof (reachable_body_bound g Hreach) as Hbound.
  assert (Hlen : ScoreHandler.length (GameCore.scoreBoard g) <= 258).
  { unfold pending in Hrel.
    destruct (CollisionHandler.foodEaten (GameCore.collision g)),
      (Snake.addSegment (GameCore.playerSnake g)); lia. }
  destruct Hscore as [Hl Hs].
  unfold INT_MAX, ScoreHandler.scoreMultiplier. lia.
Qed.

Lemma score_counters_witness :
  GameCore.Update 1 (snd (tick_at 2)) eaten_state = Some grown_state
  /\ ScoreHandler.score (GameCore.scoreBoard grown_state)
     = ScoreHandler.score (GameCore.scoreBoard eaten_state) + 10
  /\ reachable grown_state
  /\ ScoreHandler.score (GameCore.scoreBoard grown_state) = 10 * (3 - 2).
Proof.
  destruct score_counters as [Hstep Hreach].
  destruct (Hstep 1%nat (snd (tick_at 2)) eaten_state grown_state
              eaten_state_reachable grown_state_Update)
    as [Hsame | [_ [_ [Hs _]]]];
    [discriminate Hsame|].
  destruct (Hreach grown_state grown_state_reachable) as [_ [Hscore _]].
  split; [exact grown_state_Update|]. split; [exact Hs|].
  split; [exact grown_state_reachable | exact Hscore].
Defined.

(** X10.  In every reachable state the length counter and the number of
    segments agree once what is pending is counted: the counter plus a food
    event not yet scored equals the segments plus a growth not yet
    applied. *)
Theorem length_counter_tracks_body (g : GameCore.t) :
  reachable g ->
  ScoreHandler.length (GameCore.scoreBoard g)
  + pending (CollisionHandler.foodEaten (GameCore.collision g))
  = Z.of_nat (List.length (Snake.snakeBody (GameCore.playerSnake g)))
    + pending (Snake.addSegment (GameCore.playerSnake g)).
Proof.
  induction 1 as [fuel rand0 sD g H | fuel f g g' Hr IH H].
  - unfold GameCore.ctor in H.
    destruct (Food.ctor fuel rand0 _); [|discriminate].
    injection H as <-. reflexivity.
  - pose proof (reachable_Inv g Hr) as HI.
    destruct (GameCore.gameOver g) eqn:Hrun.
    + rewrite Update_over in H by assumption. injection H as <-. exact IH.
    + pose proof (Update_scoreBoard fuel f g g' H) as Hsb.
      rewrite Hrun, scored_eq in Hsb.
      destruct (Update_tick fuel f g g' HI Hrun H)
        as [Hb [_ [_ [_ [_ [Has [Hfe _]]]]]]].
      rewrite Hb, Has, Hfe, Hsb.
      pose proof (Inv_nonempty g HI) as Hne.
      destruct (Snake.due f (GameCore.playerSnake g)) eqn:Hdue.
      * rewrite Snake_Update_eq, Hdue.
        cbn [Snake.snakeBody Snake.addSegment Snake.head orb].
        set (e := Vector2Equals _ _).
        destruct (Snake.addSegment (GameCore.playerSnake g)),
          (CollisionHandler.foodEaten (GameCore.collision g));
          cbn [ScoreHandler.length List.length] in *;
          rewrite ?removelast_cons by assumption;
          cbn [List.length]; rewrite ?removelast_length;
          unfold pending in *;
          destruct (Snake.snakeBody (GameCore.playerSnake g));
          try congruence; cbn [List.length Nat.pred] in *; lia.
      * destruct (idle_no_event f g HI Hdue) as [Hs1 He].
        rewrite He, Hs1, orb_false_r.
        cbn [Snake.set_lastDirection Snake.snakeBody Snake.addSegment].
        unfold pending in *.
        destruct (CollisionHandler.foodEaten (GameCore.collision g));
          cbn [ScoreHandler.length]; lia.
Qed.

Lemma length_counter_tracks_body_witness :
  reachable eaten_state
  /\ 2 + pending true = Z.of_nat 2 + pending true
  /\ reachable grown_state
  /\ 3 + pending false = Z.of_nat 3 + pending false.
Proof.
  split; [exact eaten_state_reachable|].
  split; [exact (length_counter_tracks_body eaten_state eaten_state_reachable)|].
  split; [exact grown_state_reachable|].
  exact (length_counter_tracks_body grown_state grown_state_reachable).
Defined.

(** ** Ticks between and at advances *)

(** X11.  A tick of a running reachable game whose advance is not yet due
    completes whatever the generator and the fuel, and changes nothing but
    the stored direction, the counters (by a food event left pending) and
    the food flag, which it clears: the body, the growth flag, the time of
    the last advance and the apple stay, no food event is raised and the
    game keeps running. *)
Theorem idle_tick (g : GameCore.t) (fuel : nat) (f : Frame) :
  reachable g -> GameCore.gameOver g = false ->
  Snake.due f (GameCore.playerSnake g) = false ->
  GameCore.Update fuel f g
  = Some (GameCore.mk
            (Snake.set_lastDirection (resolved f (GameCore.playerSnake g))
                                     (GameCore.playerSnake g))
            (GameCore.apple g)
            (CollisionHandler.mk false false)
            (snd (ScoreHandler.Update (GameCore.collision g)
                                      (GameCore.scoreBoard g)))
            false).
Proof.
  intros Hreach Hrun Hdue. pose proof (reachable_Inv g Hreach) as HI.
  rewrite Update_running_eq by assumption.
  destruct (idle_no_event f g HI Hdue) as [Hs1 He].
  rewrite He, Hs1.
  change (Snake.head (Snake.set_lastDirection _ (GameCore.playerSnake g)))
    with (Snake.head (GameCore.playerSnake g)).
  cbn [Snake.set_lastDirection Snake.snakeBody].
  rewrite (running_head_safe g HI Hrun). reflexivity.
Qed.

(** X12.  Stepping back onto the neck.  When the advance of a running
    reachable game is due and the resolved direction leads the head onto the
    second segment, the tick completes with the head on that cell, and the
    game is over exactly when the snake has a third segment or a growth
    pending; a snake of two segments without pending growth just swaps its
    two cells. *)
Theorem step_onto_neck (g : GameCore.t) (fuel : nat) (f : Frame)
    (h n : Vector2) (rest : list Vector2) :
  reachable g -> GameCore.gameOver g = false ->
  Snake.due f (GameCore.playerSnake g) = true ->
  Snake.snakeBody (GameCore.playerSnake g) = h :: n :: rest ->
  Vector2Add h (Vector2Scale (resolved f (GameCore.playerSnake g)) cellSize)
  = n ->
  exists g' : GameCore.t,
    GameCore.Update fuel f g = Some g'
    /\ Snake.head (GameCore.playerSnake g') = n
    /\ GameCore.apple g' = GameCore.apple g
    /\ (GameCore.gameOver g' = true <->
        rest <> [] \/ Snake.addSegment (GameCore.playerSnake g) = true)
    /\ (rest = [] -> Snake.addSegment (GameCore.playerSnake g) = false ->
        Snake.snakeBody (GameCore.playerSnake g') = [n; h]).
Proof.
  intros Hreach Hrun Hdue Hbody Hstep.
  pose proof (reachable_Inv g Hreach) as HI.
  destruct (Inv_running g HI Hrun) as [Hnd Hon].
  pose proof (Inv_apple_free g HI) as Hfree.
  set (s := GameCore.playerSnake g) in *.
  assert (Hs1 : Snake.snakeBody (Snake.Update f s)
                = n :: (if Snake.addSegment s then h :: n :: rest
                        else removelast (h :: n :: rest))).
  { rewrite Snake_Update_eq, Hdue. cbn [Snake.snakeBody].
    unfold Snake.head. rewrite Hbody. cbn [hd]. rewrite Hstep.
    destruct (Snake.addSegment s); [reflexivity|].
    apply removelast_cons. discriminate. }
  assert (Hh1 : Snake.head (Snake.Update f s) = n)
    by (unfold Snake.head; rewrite Hs1; reflexivity).
  assert (Hhn : h <> n).
  { rewrite Hbody in Hnd. inversion Hnd as [|? ? Hin _]. intros ->.
    apply Hin. left; reflexivity. }
  assert (Hev : Vector2Equals n (Food.applePos (GameCore.apple g)) = false).
  { apply Vector2Equals_neq. intros Heq. apply Hfree. rewrite <- Heq, Hbody.
    right; left; reflexivity. }
  assert (Hout : outside n = false).
  { apply outside_false. rewrite Hbody in Hon.
    inversion Hon as [|? ? _ Hon']. inversion Hon'. assumption. }
  eexists. rewrite Update_running_eq by assumption. fold s.
  rewrite Hh1, Hev, Hs1, Hout. cbn [tl orb].
  split; [reflexivity|].
  cbn [GameCore.playerSnake GameCore.apple GameCore.gameOver].
  split; [exact Hh1|]. split; [reflexivity|]. split.
  - rewrite existsb_Vector2Equals.
    destruct (Snake.addSegment s).
    + split; [auto | intros _; right; left; reflexivity].
    + change (removelast (h :: n :: rest)) with (h :: removelast (n :: rest)).
      destruct rest as [|c rest].
      * cbn. split; [intros [Heq | []]; congruence|].
        intros [Hc | Hc]; congruence.
      * change (removelast (n :: c :: rest)) with (n :: removelast (c :: rest)).
        split; [intros _; left; discriminate|].
        intros _. right; left; reflexivity.
  - intros -> Has. rewrite Hs1, Has. reflexivity.
Qed.

Lemma upturned_state_Update :
  GameCore.Update 0 (frame_W_at 2.1%Q) grown_state = Some upturned_state.
Proof. vm_compute. reflexivity. Qed.

Lemma turned_state_Update :
  GameCore.Update 0 (frame_D_at 2.2%Q) upturned_state = Some turned_state.
Proof. vm_compute. reflexivity. Qed.

Lemma turned_state_reachable : reachable turned_state.
Proof.
  apply (reachable_Update _ _ _ _
           (reachable_Update _ _ _ _ grown_state_reachable
              upturned_state_Update)
           turned_state_Update).
Qed.

Lemma turned_opening_exec :
  GameCore.exec [(0%nat, frame_W_at 0.1%Q); (0%nat, frame_D_at 0.2%Q)]
                opening_state
  = Some turned_opening.
Proof. vm_compute. reflexivity. Qed.

Lemma turned_opening_reachable : reachable turned_opening.
Proof.
  apply (exec_reachable _ _ _ opening_state_reachable turned_opening_exec).
Qed.

Lemma idle_tick_witness :
  reachable grown_state
  /\ GameCore.gameOver grown_state = false
  /\ Snake.due (frame_W_at 2.1%Q) (GameCore.playerSnake grown_state) = false
  /\ GameCore.Update 0 (frame_W_at 2.1%Q) grown_state = Some upturned_state.
Proof.
  split; [exact grown_state_reachable|]. split; [reflexivity|].
  split; [reflexivity|].
  rewrite (idle_tick grown_state 0 (frame_W_at 2.1%Q)
             grown_state_reachable eq_refl eq_refl).
  reflexivity.
Defined.

Lemma step_onto_neck_witness :
  (reachable turned_state
   /\ exists g', GameCore.Update 1 (snd (tick_at 3)) turned_state = Some g'
                 /\ Snake.head (GameCore.playerSnake g') = mkVector2 300 350
                 /\ GameCore.gameOver g' = true)
  /\ (reachable turned_opening
      /\ exists g', GameCore.Update 1 (snd (tick_at 1)) turned_opening = Some g'
                    /\ Snake.snakeBody (GameCore.playerSnake g')
                       = [mkVector2 400 350; mkVector2 350 350]
                    /\ GameCore.gameOver g' <> true).
Proof.
  split.
  - split; [exact turned_state_reachable|].
    destruct (step_onto_neck turned_state 1 (snd (tick_at 3))
                (mkVector2 250 350) (mkVector2 300 350) [mkVector2 350 350]
                turned_state_reachable eq_refl eq_refl eq_refl eq_refl)
      as [g' [HU [Hhead [_ [Hover _]]]]].
    exists g'. split; [exact HU|]. split; [exact Hhead|].
    apply (proj2 Hover). left. discriminate.
  - split; [exact turned_opening_reachable|].
    destruct (step_onto_neck turned_opening 1 (snd (tick_at 1))
                (mkVector2 350 350) (mkVector2 400 350) []
                turned_opening_reachable eq_refl eq_refl eq_refl eq_refl)
      as [g' [HU [_ [_ [Hover Hswap]]]]].
    exists g'. split; [exact HU|]. split; [exact (Hswap eq_refl eq_refl)|].
    intros Htrue. apply (proj1 Hover) in Htrue.
    destruct Htrue as [Hc | Hc]; [apply Hc; reflexivity | discriminate Hc].
Defined.

(** ** Difficulty of the constructed snake *)

Lemma setDifficulty_cases (name : string) :
  GameSettings.setDifficulty name = GameSettings.Easy
  \/ GameSettings.setDifficulty name = GameSettings.Medium
  \/ GameSettings.setDifficulty name = GameSettings.Hard.
Proof.
  unfold GameSettings.setDifficulty.
  destruct (String.eqb name "Easy"); [auto|].
  destruct (String.eqb name "Medium"); [auto|].
  destruct (String.eqb name "Hard"); auto.
Qed.

Lemma Snake_Update_settings (f : Frame) (s : Snake.t) :
  Snake.difficulty (Snake.Update f s) = Snake.difficulty s
  /\ Snake.interval (Snake.Update f s) = Snake.interval s.
Proof.
  rewrite Snake_Update_eq. destruct (Snake.due f s); split; reflexivity.
Qed.

(** X13.  Whatever name the game is constructed with, the snake's interval
    is one of 0.5 s, 0.3 s and 0.1 s: the fallback of 0.6 s of the interval
    lookup is never taken.  Ticks never change the difficulty or the
    interval, so this holds in every reachable state. *)
Theorem interval_never_fallback :
  (forall (fuel : nat) (f : Frame) (g g' : GameCore.t),
      reachable g -> GameCore.Update fuel f g = Some g' ->
      Snake.difficulty (GameCore.playerSnake g')
      = Snake.difficulty (GameCore.playerSnake g)
      /\ Snake.interval (GameCore.playerSnake g')
         = Snake.interval (GameCore.playerSnake g))
  /\ (forall g : GameCore.t,
         reachable g ->
         let s := GameCore.playerSnake g in
         (Snake.difficulty s = GameSettings.Easy /\ Snake.interval s = 0.5%Q)
         \/ (Snake.difficulty s = GameSettings.Medium
             /\ Snake.interval s = 0.3%Q)
         \/ (Snake.difficulty s = GameSettings.Hard
             /\ Snake.interval s = 0.1%Q)).
Proof.
  assert (Hstep : forall (fuel : nat) (f : Frame) (g g' : GameCore.t),
             reachable g -> GameCore.Update fuel f g = Some g' ->
             Snake.difficulty (GameCore.playerSnake g')
             = Snake.difficulty (GameCore.playerSnake g)
             /\ Snake.interval (GameCore.playerSnake g')
                = Snake.interval (GameCore.playerSnake g)).
  { intros fuel f g g' Hr H. pose proof (reachable_Inv g Hr) as HI.
    destruct (GameCore.gameOver g) eqn:Hrun.
    - rewrite Update_over in H by assumption. injection H as <-. auto.
    - destruct (Update_tick fuel f g g' HI Hrun H) as [_ [_ [Hi [Hd _]]]].
      rewrite Hi, Hd. apply Snake_Update_settings. }
  split; [exact Hstep|].
  induction 1 as [fuel rand0 sD g H | fuel f g g' Hr IH H].
  - unfold GameCore.ctor in H.
    destruct (Food.ctor fuel rand0 _); [|discriminate].
    injection H as <-. cbn.
    destruct (setDifficulty_cases sD) as [-> | [-> | ->]]; auto.
  - cbv zeta in *. destruct (Hstep fuel f g g' Hr H) as [-> ->]. exact IH.
Qed.

Lemma interval_never_fallback_witness :
  reachable grown_state
  /\ GameCore.Update 1 (snd (tick_at 3)) grown_state = Some settled_state
  /\ Snake.interval (GameCore.playerSnake settled_state)
     = Snake.interval (GameCore.playerSnake grown_state)
  /\ Snake.interval (GameCore.playerSnake grown_state) = 0.3%Q.
Proof.
  destruct interval_never_fallback as [Hstep Hall].
  destruct (Hstep 1%nat (snd (tick_at 3)) grown_state settled_state
              grown_state_reachable settled_state_Update) as [_ Hi].
  split; [exact grown_state_reachable|].
  split; [exact settled_state_Update|]. split; [exact Hi|].
  destruct (Hall grown_state grown_state_reachable)
    as [[Hd _] | [[_ Hm] | [Hd _]]]; [discriminate Hd | exact Hm | discriminate Hd].
Defined.

(** ** Drawing *)

Lemma for_upto_In (line : Z -> DrawCall) (bound : Z) (c : DrawCall) :
  forall (fuel : nat) (i : Z),
    In c (Background.for_upto fuel i bound line)
    <-> exists k, i <= k <= bound /\ k < i + Z.of_nat fuel /\ c = line k.
Proof.
  induction fuel as [|fuel IH]; intros i; cbn [Background.for_upto].
  - split; [intros [] | intros [k [H1 [H2 _]]]; lia].
  - destruct (i <=? bound) eqn:E.
    + apply Z.leb_le in E. cbn [In]. rewrite IH. split.
      * intros [<- | [k [H1 [H2 ->]]]].
        -- exists i. split; [lia | split; [lia | reflexivity]].
        -- exists k. split; [lia | split; [lia | reflexivity]].
      * intros [k [H1 [H2 ->]]].
        destruct (Z.eq_dec k i) as [-> | Hne]; [left; reflexivity|].
        right. exists k. split; [lia | split; [lia | reflexivity]].
    + apply Z.leb_gt in E. split; [intros [] | intros [k [H1 _]]; lia].
Qed.

Lemma Background_Draw_In (c : DrawCall) :
  In c Background.Draw
  <-> c = ClearBackground Background.BackgroundColor
      \/ c = DrawRectangleLinesEx Background.borderRectangle 8 BLACK
      \/ (exists k, 0 <= k <= 16
                    /\ c = horizontal_line (offset + k * cellSize))
      \/ (exists k, 0 <= k <= 16
                    /\ c = vertical_line (offset + k * cellSize)).
Proof.
  unfold Background.Draw. rewrite !in_app_iff, !for_upto_In. cbn [In].
  change rows with 16. change cols with 16.
  change (offset + 16 * cellSize) with (offset + gridWidth).
  unfold horizontal_line, vertical_line.
  change (offset + gridHeight) with (offset + gridWidth).
  change (Z.of_nat (Z.to_nat (16 + 2))) with 18.
  split.
  - intros [[H | [H | []]] | [[k [H1 [_ ->]]] | [k [H1 [_ ->]]]]]; auto.
    + right; right; left. exists k. auto.
    + right; right; right. exists k. auto.
  - intros [H | [H | [[k [H1 ->]] | [k [H1 ->]]]]]; auto.
    + right; left. exists k. split; [lia | split; [lia | reflexivity]].
    + right; right. exists k. split; [lia | split; [lia | reflexivity]].
Qed.

(** X14.  [Background::Draw] draws the grid of the board the collision code
    uses: every line it draws is a horizontal or a vertical line across the
    whole board through a grid coordinate, and the four edges of every cell
    of the board lie on drawn lines.  The border rectangle exceeds the board
    by exactly its line thickness on each side. *)
Theorem grid_frames_cells :
  (forall (x1 y1 x2 y2 : Z) (color : Color.t),
      In (DrawLine x1 y1 x2 y2 color) Background.Draw ->
      color = Background.GridColor
      /\ ((y1 = y2 /\ x1 = offset /\ x2 = offset + gridWidth
           /\ offset <= y1 <= offset + gridHeight
           /\ (y1 - offset) mod cellSize = 0)
          \/ (x1 = x2 /\ y1 = offset /\ y2 = offset + gridHeight
              /\ offset <= x1 <= offset + gridWidth
              /\ (x1 - offset) mod cellSize = 0)))
  /\ (forall v : Vector2,
         is_cell v ->
         In (horizontal_line (y v)) Background.Draw
         /\ In (horizontal_line (y v + cellSize)) Background.Draw
         /\ In (vertical_line (x v)) Background.Draw
         /\ In (vertical_line (x v + cellSize)) Background.Draw)
  /\ (Rectangle.x Background.borderRectangle + 8 = offset
      /\ Rectangle.y Background.borderRectangle + 8 = offset
      /\ Rectangle.x Background.borderRectangle
         + Rectangle.width Background.borderRectangle - 8
         = offset + gridWidth
      /\ Rectangle.y Background.borderRectangle
         + Rectangle.height Background.borderRectangle - 8
         = offset + gridHeight).
Proof.
  split; [|split; [|repeat split]].
  - intros x1 y1 x2 y2 color H. apply Background_Draw_In in H.
    assert (Hmod : forall k, (offset + k * cellSize - offset) mod cellSize = 0).
    { intros k. replace (offset + k * cellSize - offset) with (k * cellSize)
        by lia. apply Z.mod_mul. discriminate. }
    assert (Hrange : forall k, 0 <= k <= 16 ->
                               offset <= offset + k * cellSize
                               <= offset + gridWidth)
      by (intros k Hk; unfold offset, cellSize, gridWidth; lia).
    destruct H as [H | [H | [[k [Hk H]] | [k [Hk H]]]]]; try discriminate;
      unfold horizontal_line, vertical_line in H;
      injection H as -> -> -> -> ->; (split; [reflexivity|]).
    + left. split; [reflexivity|]. split; [reflexivity|].
      split; [reflexivity|]. split; [apply Hrange; exact Hk | apply Hmod].
    + right. split; [reflexivity|]. split; [reflexivity|].
      split; [reflexivity|]. split; [apply Hrange; exact Hk | apply Hmod].
  - intros v Hv. apply is_cell_cell in Hv.
    destruct Hv as [cx [cy [Hx [Hy ->]]]].
    change cols with 16 in Hx. change rows with 16 in Hy.
    unfold cell. cbn [x y].
    rewrite !Background_Draw_In. repeat split.
    + right; right; left. exists cy. split; [lia | f_equal; lia].
    + right; right; left. exists (cy + 1).
      split; [lia | f_equal; unfold cellSize, offset; lia].
    + right; right; right. exists cx. split; [lia | f_equal; lia].
    + right; right; right. exists (cx + 1).
      split; [lia | f_equal; unfold cellSize, offset; lia].
Qed.

Lemma grid_frames_cells_witness :
  is_cell (mkVector2 350 350)
  /\ In (horizontal_line 350) Background.Draw
  /\ In (vertical_line 400) Background.Draw
  /\ In (DrawLine 50 850 850 850 Background.GridColor) Background.Draw
  /\ (850 - offset) mod cellSize = 0.
Proof.
  destruct grid_frames_cells as [Hlines [Hcells _]].
  assert (Hc : is_cell (mkVector2 350 350))
    by (apply (cell_is_cell 6 6); unfold cols, rows; cbn; lia).
  destruct (Hcells (mkVector2 350 350) Hc) as [Hh [_ [_ Hv]]].
  assert (Hlast : In (DrawLine 50 850 850 850 Background.GridColor)
                     Background.Draw).
  { apply Background_Draw_In. right; right; left. exists 16.
    split; [lia | reflexivity]. }
  split; [exact Hc|]. split; [exact Hh|]. split; [exact Hv|].
  split; [exact Hlast|].
  destruct (Hlines _ _ _ _ _ Hlast) as [_ [[_ [_ [_ [_ Hmod]]]] | [Hx _]]];
    [exact Hmod | discriminate Hx].
Defined.

Lemma cells_apart (p q : Vector2) :
  is_cell p -> is_cell q -> p <> q ->
  within_board (snakeRect p) /\ ~ overlap (snakeRect p) (snakeRect q).
Proof.
  destruct p as [px py], q as [qx qy].
  unfold is_cell, on_board, aligned, within_board, overlap, snakeRect.
  cbn [x y Rectangle.x Rectangle.y Rectangle.width Rectangle.height].
  unfold offset, cellSize, gridWidth, gridHeight.
  intros [[Hpx Hpy] [Apx Apy]] [[Hqx Hqy] [Aqx Aqy]] Hne.
  assert (Hpx' : px + 50 <= 50 + 800)
    by (revert Apx; Z.div_mod_to_equations; lia).
  assert (Hpy' : py + 50 <= 50 + 800)
    by (revert Apy; Z.div_mod_to_equations; lia).
  split; [lia|].
  intros [H1 [H2 [H3 H4]]]. apply Hne.
  assert (px = qx) by (revert Apx Aqx; Z.div_mod_to_equations; lia).
  assert (py = qy) by (revert Apy Aqy; Z.div_mod_to_equations; lia).
  congruence.
Qed.

Lemma painted_positions (apple : Food.t) (s : Snake.t) :
  map drawn_area (Food_Draw apple ++ Snake_Draw s)
  = map (fun p => Some (snakeRect p)) (Food.applePos apple :: Snake.snakeBody s).
Proof.
  unfold Food_Draw, Snake_Draw. cbn [app map drawn_area].
  rewrite map_map. reflexivity.
Qed.

Lemma painted_nth (apple : Food.t) (s : Snake.t) (i : nat) (c : DrawCall)
    (rec : Rectangle.t) :
  nth_error (Food_Draw apple ++ Snake_Draw s) i = Some c ->
  drawn_area c = Some rec ->
  exists p, nth_error (Food.applePos apple :: Snake.snakeBody s) i = Some p
            /\ rec = snakeRect p.
Proof.
  intros Hn Ha.
  pose proof (map_nth_error drawn_area i _ Hn) as Hm.
  rewrite painted_positions, Ha in Hm.
  rewrite nth_error_map in Hm.
  destruct (nth_error (Food.applePos apple :: Snake.snakeBody s) i) as [p|];
    [|discriminate].
  exists p. split; [reflexivity|]. cbn in Hm. congruence.
Qed.

(** X15.  What [Food::Draw] and [Snake::Draw] paint while a reachable game
    runs: the texture of the apple and the rectangle of every segment are
    squares of one cell inside the board, and no two of them overlap. *)
Theorem painted_squares_disjoint (g : GameCore.t) :
  reachable g -> GameCore.gameOver g = false ->
  let calls := Food_Draw (GameCore.apple g)
               ++ Snake_Draw (GameCore.playerSnake g) in
  List.length calls
  = S (List.length (Snake.snakeBody (GameCore.playerSnake g)))
  /\ (forall (c : DrawCall),
         In c calls ->
         exists rec, drawn_area c = Some rec
                     /\ Rectangle.width rec = cellSize
                     /\ Rectangle.height rec = cellSize
                     /\ within_board rec)
  /\ (forall (i j : nat) (ci cj : DrawCall) (ri rj : Rectangle.t),
         i <> j ->
         nth_error calls i = Some ci -> nth_error calls j = Some cj ->
         drawn_area ci = Some ri -> drawn_area cj = Some rj ->
         ~ overlap ri rj).
Proof.
  intros Hreach Hrun calls. pose proof (reachable_Inv g Hreach) as HI.
  destruct (Inv_running g HI Hrun) as [Hnd Hon].
  set (cells := Food.applePos (GameCore.apple g)
                :: Snake.snakeBody (GameCore.playerSnake g)).
  assert (Hcells : Forall is_cell cells).
  { constructor; [apply (Inv_apple_cell g HI)|].
    pose proof (Inv_aligned g HI) as Hal.
    rewrite Forall_forall in *. intros v Hv. split; auto. }
  assert (Hdistinct : NoDup cells)
    by (constructor; [apply (Inv_apple_free g HI) | exact Hnd]).
  split; [|split].
  - unfold calls, Food_Draw, Snake_Draw.
    rewrite length_app, length_map. reflexivity.
  - intros c Hc. apply In_nth_error in Hc. destruct Hc as [i Hi].
    assert (Ha : exists rec, drawn_area c = Some rec).
    { pose proof (map_nth_error drawn_area i _ Hi) as Hm.
      unfold calls in Hm. rewrite painted_positions, nth_error_map in Hm.
      fold cells in Hm.
      destruct (nth_error cells i) as [p|]; [|discriminate Hm].
      exists (snakeRect p). cbn [option_map] in Hm. congruence. }
    destruct Ha as [rec Ha]. exists rec. split; [exact Ha|].
    destruct (painted_nth _ _ i c rec Hi Ha) as [p [Hp ->]].
    split; [reflexivity|]. split; [reflexivity|].
    apply nth_error_In in Hp. rewrite Forall_forall in Hcells.
    pose proof (Hcells p Hp) as Hcp.
    destruct Hcp as [[Hx Hy] [Ax Ay]]. destruct p as [px py].
    unfold within_board, snakeRect.
    cbn [x y Rectangle.x Rectangle.y Rectangle.width Rectangle.height] in *.
    unfold offset, cellSize, gridWidth, gridHeight in *.
    split; [lia|].
    split; [revert Ax; Z.div_mod_to_equations; lia|].
    split; [lia|]. revert Ay; Z.div_mod_to_equations; lia.
  - intros i j ci cj ri rj Hij Hi Hj Hai Haj.
    destruct (painted_nth _ _ i ci ri Hi Hai) as [p [Hp ->]].
    destruct (painted_nth _ _ j cj rj Hj Haj) as [q [Hq ->]].
    fold cells in Hp, Hq.
    assert (Hpq : p <> q).
    { intros ->. apply Hij.
      apply (proj1 (NoDup_nth_error cells) Hdistinct i j);
        [apply nth_error_Some; congruence | congruence]. }
    rewrite Forall_forall in Hcells.
    apply (cells_apart p q);
      [apply Hcells; apply (nth_error_In _ _ Hp)
      | apply Hcells; apply (nth_error_In _ _ Hq) | exact Hpq].
Qed.

Lemma painted_squares_disjoint_witness :
  reachable grown_state
  /\ GameCore.gameOver grown_state = false
  /\ ~ overlap (Rectangle.mk 50 50 50 50) (Rectangle.mk 250 350 50 50)
  /\ ~ overlap (Rectangle.mk 250 350 50 50) (Rectangle.mk 300 350 50 50).
Proof.
  destruct (painted_squares_disjoint grown_state grown_state_reachable eq_refl)
    as [_ [_ Hapart]].
  split; [exact grown_state_reachable|]. split; [reflexivity|]. split.
  - apply (Hapart 0%nat 1%nat
             (DrawTexture Food_appleTexture 50 50 WHITE)
             (DrawRectangleRounded (snakeRect (mkVector2 250 350)) 0.5%Q 10
                                   PURPLE));
      [discriminate | reflexivity | reflexivity | reflexivity | reflexivity].
  - apply (Hapart 1%nat 2%nat
             (DrawRectangleRounded (snakeRect (mkVector2 250 350)) 0.5%Q 10
                                   PURPLE)
             (DrawRectangleRounded (snakeRect (mkVector2 300 350)) 0.5%Q 10
                                   PURPLE));
      [discriminate | reflexivity | reflexivity | reflexivity | reflexivity].
Defined.

(** ** The schedule over many frames *)

Lemma not_due (f : Frame) (s : Snake.t) :
  (currentTime f - Snake.lastUpdateTime s < Snake.interval s)%Q ->
  Snake.due f s = false.
Proof.
  intros Hlt. unfold Snake.due.
  destruct (Qle_bool (Snake.interval s)
                     (currentTime f - Snake.lastUpdateTime s)) eqn:E;
    [|reflexivity].
  apply Qle_bool_iff in E. exfalso. apply (Qlt_not_le _ _ Hlt E).
Qed.

(** X16.  However many frames arrive before the interval since the last
    advance has elapsed, and whatever keys they carry, the snake does not
    advance: the body, the growth flag and the time of the last advance stay
    as they were.  The frame rate does not change the speed of the snake. *)
Theorem no_advance_before_interval (frames : list Frame) :
  forall s : Snake.t,
    Forall (fun f => (currentTime f - Snake.lastUpdateTime s
                      < Snake.interval s)%Q) frames ->
    advances frames s = 0%nat
    /\ Snake.snakeBody (Snake_run frames s) = Snake.snakeBody s
    /\ Snake.addSegment (Snake_run frames s) = Snake.addSegment s
    /\ Snake.lastUpdateTime (Snake_run frames s) = Snake.lastUpdateTime s.
Proof.
  induction frames as [|f frames IH]; intros s Hall; [repeat split|].
  inversion Hall as [|? ? Hf Hrest]; subst.
  pose proof (not_due f s Hf) as Hdue.
  assert (Hs1 : Snake.Update f s = Snake.set_lastDirection (resolved f s) s)
    by (rewrite Snake_Update_eq, Hdue; reflexivity).
  cbn [advances Snake_run fold_left]. fold (Snake_run frames (Snake.Update f s)).
  rewrite Hdue, Hs1.
  destruct (IH (Snake.set_lastDirection (resolved f s) s) Hrest)
    as [Ha [Hb [Hg Ht]]].
  rewrite Ha, Hb, Hg, Ht. repeat split.
Qed.

Lemma no_advance_before_interval_witness :
  let s1 := Snake.Update frame_advance_1 (Snake.ctor GameSettings.Medium) in
  Forall (fun f => (currentTime f - Snake.lastUpdateTime s1
                    < Snake.interval s1)%Q) [frame_W; frame_D]
  /\ Snake.snakeBody (Snake_run [frame_W; frame_D] s1)
     = [mkVector2 300 350; mkVector2 350 350]
  /\ Snake.lastDirection (Snake_run [frame_W; frame_D] s1) = dirRight.
Proof.
  intros s1.
  assert (Hall : Forall (fun f => (currentTime f - Snake.lastUpdateTime s1
                                   < Snake.interval s1)%Q) [frame_W; frame_D])
    by (constructor; [reflexivity | constructor; [reflexivity | constructor]]).
  destruct (no_advance_before_interval [frame_W; frame_D] s1 Hall)
    as [_ [Hbody _]].
  split; [exact Hall|]. split; [exact Hbody | reflexivity].
Defined.
